(** * Tensor-network simulation state (nvqir/cutensornet/tn_simulation_state.cpp)

    A shallow embedding of [TensorNetSimulationState]: [overlap],
    [getAmplitude], [getTensor], [getNumTensors] and [toHost].

    The C++ code talks to two libraries whose code is not part of the
    translation unit: the CUDA runtime and cuTensorNet.  Both are modelled
    as a [World] (device memory, live library handles, the log of calls) and
    a [Backend] of oracles that decide what each call answers.  Everything
    the C++ function itself does (which calls, in which order, on which
    arguments, what it frees and what it throws) is written out. *)

From Stdlib Require Import ZArith Lia.
From stdpp Require Import gmap list numbers.

Open Scope Z_scope.

(** ** Data model *)

(** [AppliedTensorOp] of tensornet_state.h: one applied gate tensor.
    [deviceData] is a raw device pointer (an address in [dev] below). *)
Record AppliedTensorOp := mkOp {
  deviceData : nat;
  targetQubitIds : list Z;
  controlQubitIds : list Z;
  isAdjoint : bool;
  isUnitary : bool;
}.

(** [TensorNetState]: only the two members this file reads. *)
Record TensorNetState := mkNet {
  tn_numQubits : nat;
  m_tensorOps : list AppliedTensorOp;
}.

(** [ScratchDeviceMem]: the borrowed scratch pool.  [scratchSize] is a
    [std::size_t]. *)
Record ScratchDeviceMem := mkScratch {
  d_scratch : nat;
  scratchSize : N;
}.

(** What cuTensorNet keeps behind a [cutensornetState_t]. *)
Record QState := mkQState {
  qs_numQubits : nat;
  qs_dims : list Z;
  qs_ops : list AppliedTensorOp;
}.

(** What cuTensorNet keeps behind a [cutensornetStateAccessor_t]. *)
Record Accessor := mkAccessor {
  acc_state : nat;
  acc_modes : list Z;
  acc_numHyperSamples : option Z;
}.

(** What cuTensorNet keeps behind a [cutensornetWorkspaceDescriptor_t]:
    the size the prepared plan asks for, and the size of the attached buffer. *)
Record Workspace := mkWorkspace {
  ws_required : option Z;
  ws_attached : option (nat * Z);
}.

(** The calls that cross the library boundary, with their arguments. *)
Inductive Call :=
| CudaMalloc (count : nat)
| CudaMemcpyDeviceToHost (src count : nat)
| CudaMemcpyHostToDevice (dst count : nat)
| CudaFree (ptr : nat)
| CutnCreateState (nq : nat) (dims : list Z)
| CutnStateApplyTensorOperator
    (st : nat) (targets : list Z) (data : nat) (immutable : Z)
    (adjoint unitary : bool)
| CutnStateApplyControlledTensorOperator
    (st : nat) (controls targets : list Z) (data : nat) (immutable : Z)
    (adjoint unitary : bool)
| CutnCreateAccessor (st : nat) (modes : list Z)
| CutnAccessorConfigure (acc : nat) (numHyperSamples : Z)
| CutnCreateWorkspaceDescriptor
| CutnAccessorPrepare (acc : nat) (budget : Z) (ws : nat)
| CutnWorkspaceGetMemorySize (ws : nat)
| CutnWorkspaceSetMemory (ws : nat) (buffer : nat) (size : Z)
| CutnAccessorCompute (acc : nat) (values : list Z) (ws out : nat)
| CutnDestroyWorkspaceDescriptor (ws : nat)
| CutnDestroyAccessor (acc : nat)
| CutnDestroyState (st : nat)
| TnGetStateVector (net : TensorNetState) (modes values : list Z).

(** The texts of the exceptions thrown by this file. *)
Inductive Message :=
| OverlapOtherType
    (* "[tensornet state] Computing overlap with other types of state is
       not supported." *)
| InsufficientWorkspace
    (* "ERROR: Insufficient workspace size on Device!" *)
| InvalidNumberOfBits (expected provided : nat)
    (* "[tensornet-state] getAmplitude with an invalid number of bits in the
       basis state: expected {}, provided {}." *)
| InvalidBasisState
    (* "[tensornet-state] getAmplitude with an invalid basis state: only
       qubit state (0 or 1) is supported." *)
| EmptyBasisState
    (* "[tensornet-state] Empty basis state." *)
| InvalidTensorIndex
    (* "Invalid tensor index" *)
| DimensionMismatch (expecting providing : nat).
    (* "[TensorNetSimulationState] Dimension mismatch: expecting {} elements
       but providing an array of size {}." *)

(** C++ exceptions and the two ways of leaving the defined behaviour. *)
Inductive exn :=
| runtime_error (what : Message)
| out_of_range (what : Message)
| api_error (c : Call)        (* HANDLE_CUDA_ERROR / HANDLE_CUTN_ERROR *)
| assertion_failure           (* a failed [assert] *)
| memory_fault.               (* an access outside an allocation *)

Inductive result (A : Type) :=
| Ok (a : A)
| Throw (e : exn).
Arguments Ok {A} a.
Arguments Throw {A} e.

(** [cudaq::SimulationState::precision]. *)
Inductive precision := fp32 | fp64.

(** ** State-and-exception monad *)

Definition M (S A : Type) : Type := S -> result A * S.

Definition ret {S A} (a : A) : M S A := fun s => (Ok a, s).

Definition throw {S A} (e : exn) : M S A := fun s => (Throw e, s).

Definition bind {S A B} (m : M S A) (k : A -> M S B) : M S B :=
  fun s => match m s with
           | (Ok a, s') => k a s'
           | (Throw e, s') => (Throw e, s')
           end.

Declare Scope cxx_scope.
Delimit Scope cxx_scope with cxx.
Notation "x <- m ;; k" := (bind m (fun x => k))
  (at level 100, m at next level, right associativity) : cxx_scope.
Notation "m ;;; k" := (bind m (fun _ => k))
  (at level 100, right associativity) : cxx_scope.

Definition get {S} : M S S := fun s => (Ok s, s).
Definition put {S} (s : S) : M S unit := fun _ => (Ok tt, s).
Definition modify {S} (f : S -> S) : M S unit := fun s => (Ok tt, f s).
Definition gets {S A} (f : S -> A) : M S A := fun s => (Ok (f s), s).

(** [std::vector::empty]. *)
Definition vec_empty {A} (l : list A) : bool :=
  match l with [] => true | _ :: _ => false end.

(** [assert(b)]. *)
Definition assert {S} (b : bool) : M S unit :=
  if b then ret tt else throw assertion_failure.

(** A range-based [for] loop whose body returns nothing. *)
Fixpoint forM_ {S A} (f : A -> M S unit) (l : list A) : M S unit :=
  match l with
  | [] => ret tt
  | x :: l' => (f x ;;; forM_ f l')%cxx
  end.

(** A range-based [for (auto &x : l)] loop that updates each element. *)
Fixpoint forM {S A B} (f : A -> M S B) (l : list A) : M S (list B) :=
  match l with
  | [] => ret []
  | x :: l' => (y <- f x ;; ys <- forM f l' ;; ret (y :: ys))%cxx
  end.

(** Run a computation on the second component of a pair of states. *)
Definition lift_snd {S1 S2 A} (m : M S2 A) : M (S1 * S2) A :=
  fun '(s1, s2) => match m s2 with (r, s2') => (r, (s1, s2')) end.

(** [std::size_t] on the 64-bit targets the backend supports. *)
Definition wrap64 (z : Z) : Z := z mod 2 ^ 64.

(** [static_cast<int64_t>] of a [std::size_t]: the value with the same 64
    bits, read in two's complement. *)
Definition int64_of_size (n : N) : Z :=
  (Z.of_N n + 2 ^ 63) mod 2 ^ 64 - 2 ^ 63.

(** A key that is not in the map: where a new allocation or handle lands. *)
Definition fresh_key {V} (m : gmap nat V) : nat :=
  S (max_list ((map_to_list m).*1)).

(** ** The world outside the translation unit *)

Section Model.

(** [std::complex<double>]; only copied, compared for nothing and handed to
    [std::abs], so it stays abstract. *)
Context {C : Type}.

(** [std::abs] on a complex number, converted back to the
    [std::complex<double>] that [overlap] returns. *)
Variable cabs : C -> C.

(** [g_maxQubitsForStateContraction], a constant of the header. *)
Variable g_maxQubitsForStateContraction : nat.

(** [getPrecision()], defined in the header. *)
Variable getPrecision : precision.

Record World := mkWorld {
  dev : gmap nat (list C);          (* device allocations, by address *)
  qstates : gmap nat QState;        (* live cutensornetState_t *)
  accessors : gmap nat Accessor;    (* live cutensornetStateAccessor_t *)
  workspaces : gmap nat Workspace;  (* live cutensornetWorkspaceDescriptor_t *)
  log : list Call;                  (* every call made so far, oldest first *)
}.

Definition with_dev (f : gmap nat (list C) -> gmap nat (list C)) (w : World) :=
  mkWorld (f (dev w)) (qstates w) (accessors w) (workspaces w) (log w).
Definition with_qstates (f : gmap nat QState -> gmap nat QState) (w : World) :=
  mkWorld (dev w) (f (qstates w)) (accessors w) (workspaces w) (log w).
Definition with_accessors (f : gmap nat Accessor -> gmap nat Accessor) (w : World) :=
  mkWorld (dev w) (qstates w) (f (accessors w)) (workspaces w) (log w).
Definition with_workspaces (f : gmap nat Workspace -> gmap nat Workspace) (w : World) :=
  mkWorld (dev w) (qstates w) (accessors w) (f (workspaces w)) (log w).
Definition with_log (f : list Call -> list Call) (w : World) :=
  mkWorld (dev w) (qstates w) (accessors w) (workspaces w) (f (log w)).

(** What the libraries answer.  [call_ok c] is the status of call [c]
    (success or not); the other fields are the numbers they compute. *)
Record Backend := mkBackend {
  call_ok : Call -> bool;
  junk : C;
  plan_worksize : QState -> Accessor -> Z -> Z;
  amplitude : gmap nat (list C) -> QState -> Accessor -> list Z -> C;
  state_vector : gmap nat (list C) -> TensorNetState -> list Z -> list Z -> list C;
}.

Variable backend : Backend.

(** A library call: it is logged, and a status other than success is thrown
    by the HANDLE_CUDA_ERROR / HANDLE_CUTN_ERROR wrapper around it. *)
Definition api (c : Call) : M World unit := fun w =>
  let w' := with_log (fun l => l ++ [c]) w in
  if call_ok backend c then (Ok tt, w') else (Throw (api_error c), w').

(** A handle or address the library does not know is reported as an error
    status of the call. *)
Definition known {V} (c : Call) (o : option V) : M World V :=
  match o with
  | Some v => ret v
  | None => throw (api_error c)
  end.

(** *** CUDA runtime *)

Definition cudaMalloc (count : nat) : M World nat :=
  (api (CudaMalloc count) ;;;
   w <- get ;;
   let p := fresh_key (dev w) in
   put (with_dev (insert p (replicate count (junk backend))) w) ;;;
   ret p)%cxx.

Definition cudaMemcpyDeviceToHost (src count : nat) : M World (list C) :=
  let c := CudaMemcpyDeviceToHost src count in
  (api c ;;;
   w <- get ;;
   l <- known c (dev w !! src) ;;
   if (count <=? length l)%nat then ret (take count l) else throw (api_error c))%cxx.

Definition cudaMemcpyHostToDevice (dst : nat) (data : list C) : M World unit :=
  let c := CudaMemcpyHostToDevice dst (length data) in
  (api c ;;;
   w <- get ;;
   l <- known c (dev w !! dst) ;;
   if (length data <=? length l)%nat
   then put (with_dev (insert dst (data ++ drop (length data) l)) w)
   else throw (api_error c))%cxx.

Definition cudaFree (p : nat) : M World unit :=
  (api (CudaFree p) ;;; modify (with_dev (delete p)))%cxx.

(** *** cuTensorNet *)

Definition cutensornetCreateState (nq : nat) (dims : list Z) : M World nat :=
  (api (CutnCreateState nq dims) ;;;
   w <- get ;;
   let h := fresh_key (qstates w) in
   put (with_qstates (insert h (mkQState nq dims [])) w) ;;;
   ret h)%cxx.

Definition append_op (op : AppliedTensorOp) (q : QState) : QState :=
  mkQState (qs_numQubits q) (qs_dims q) (qs_ops q ++ [op]).

Definition cutensornetStateApplyTensorOperator
    (st : nat) (targets : list Z) (data : nat) (immutable : Z)
    (adjoint unitary : bool) : M World unit :=
  let c := CutnStateApplyTensorOperator st targets data immutable adjoint unitary in
  (api c ;;;
   w <- get ;;
   q <- known c (qstates w !! st) ;;
   put (with_qstates (insert st (append_op (mkOp data targets [] adjoint unitary) q)) w))%cxx.

Definition cutensornetStateApplyControlledTensorOperator
    (st : nat) (controls targets : list Z) (data : nat) (immutable : Z)
    (adjoint unitary : bool) : M World unit :=
  let c := CutnStateApplyControlledTensorOperator
             st controls targets data immutable adjoint unitary in
  (api c ;;;
   w <- get ;;
   q <- known c (qstates w !! st) ;;
   put (with_qstates
          (insert st (append_op (mkOp data targets controls adjoint unitary) q)) w))%cxx.

Definition cutensornetCreateAccessor (st : nat) (modes : list Z) : M World nat :=
  let c := CutnCreateAccessor st modes in
  (api c ;;;
   w <- get ;;
   _ <- known c (qstates w !! st) ;;
   let h := fresh_key (accessors w) in
   put (with_accessors (insert h (mkAccessor st modes None)) w) ;;;
   ret h)%cxx.

Definition cutensornetAccessorConfigure (acc : nat) (numHyperSamples : Z)
  : M World unit :=
  let c := CutnAccessorConfigure acc numHyperSamples in
  (api c ;;;
   w <- get ;;
   a <- known c (accessors w !! acc) ;;
   put (with_accessors
          (insert acc (mkAccessor (acc_state a) (acc_modes a) (Some numHyperSamples)))
          w))%cxx.

Definition cutensornetCreateWorkspaceDescriptor : M World nat :=
  (api CutnCreateWorkspaceDescriptor ;;;
   w <- get ;;
   let h := fresh_key (workspaces w) in
   put (with_workspaces (insert h (mkWorkspace None None)) w) ;;;
   ret h)%cxx.

Definition cutensornetAccessorPrepare (acc : nat) (budget : Z) (ws : nat)
  : M World unit :=
  let c := CutnAccessorPrepare acc budget ws in
  (api c ;;;
   w <- get ;;
   a <- known c (accessors w !! acc) ;;
   q <- known c (qstates w !! acc_state a) ;;
   d <- known c (workspaces w !! ws) ;;
   put (with_workspaces
          (insert ws (mkWorkspace (Some (plan_worksize backend q a budget))
                                  (ws_attached d))) w))%cxx.

Definition cutensornetWorkspaceGetMemorySize (ws : nat) : M World Z :=
  let c := CutnWorkspaceGetMemorySize ws in
  (api c ;;;
   w <- get ;;
   d <- known c (workspaces w !! ws) ;;
   ret (default 0 (ws_required d)))%cxx.

Definition cutensornetWorkspaceSetMemory (ws buffer : nat) (size : Z)
  : M World unit :=
  let c := CutnWorkspaceSetMemory ws buffer size in
  (api c ;;;
   w <- get ;;
   d <- known c (workspaces w !! ws) ;;
   put (with_workspaces
          (insert ws (mkWorkspace (ws_required d) (Some (buffer, size)))) w))%cxx.

Definition cutensornetAccessorCompute (acc : nat) (values : list Z) (ws out : nat)
  : M World unit :=
  let c := CutnAccessorCompute acc values ws out in
  (api c ;;;
   w <- get ;;
   a <- known c (accessors w !! acc) ;;
   q <- known c (qstates w !! acc_state a) ;;
   _ <- known c (workspaces w !! ws) ;;
   l <- known c (dev w !! out) ;;
   put (with_dev (insert out (amplitude backend (dev w) q a values :: drop 1 l)) w))%cxx.

Definition cutensornetDestroyWorkspaceDescriptor (ws : nat) : M World unit :=
  (api (CutnDestroyWorkspaceDescriptor ws) ;;; modify (with_workspaces (delete ws)))%cxx.

Definition cutensornetDestroyAccessor (acc : nat) : M World unit :=
  (api (CutnDestroyAccessor acc) ;;; modify (with_accessors (delete acc)))%cxx.

Definition cutensornetDestroyState (st : nat) : M World unit :=
  (api (CutnDestroyState st) ;;; modify (with_qstates (delete st)))%cxx.

(** *** TensorNetState::getStateVector(projectedModes, projectedModeValues) *)

(** Modelled from the spec: [TensorNetState::getStateVector] is defined in
    tensornet_state.cpp, which is not among the sources read here.  The
    specification has the network "expose state-vector materialization and
    partial-amplitude queries through the contraction backend"
    ([materializeStateVector(network)] giving the dense complex vector, and
    an accessor computation over pinned modes giving the reduced
    amplitude).  It is taken as one request to the backend: the request is
    logged, it may be refused, and otherwise the answer is what the backend
    computes from the network, the device memory and the pinned modes and
    values.  Without arguments (both lists empty) it asks for the whole
    dense vector.  What the method does to the device while it runs is not
    visible here: this definition leaves the device as it is, which is a
    choice of the model and not a finding about the code. *)
Definition getStateVector (net : TensorNetState) (modes values : list Z)
  : M World (list C) :=
  (api (TnGetStateVector net modes values) ;;;
   w <- get ;;
   ret (state_vector backend (dev w) net modes values))%cxx.

(** ** The simulation state manager *)

(** [TensorNetSimulationState].  [m_state] is the owned network,
    [m_contractedStateVec] the lazily filled dense vector (empty: not yet
    computed), [scratchPad] the borrowed scratch pool. *)
Record TensorNetSimulationState := mkSim {
  m_state : TensorNetState;
  m_contractedStateVec : list C;
  scratchPad : ScratchDeviceMem;
}.

(** [cudaq::SimulationState]: this representation, or any other one (of
    which only the qubit count matters here). *)
Inductive SimulationState :=
| TensorNet (s : TensorNetSimulationState)
| OtherRepresentation (nq : nat).

(** [cudaq::SimulationState::Tensor]. *)
Record Tensor := mkTensor {
  data : nat;
  extents : list nat;
  fp_precision : precision;
}.

Definition getNumQubits (self : TensorNetSimulationState) : nat :=
  tn_numQubits (m_state self).

Definition otherNumQubits (other : SimulationState) : nat :=
  match other with
  | TensorNet s => getNumQubits s
  | OtherRepresentation nq => nq
  end.

Definition getNumTensors (self : TensorNetSimulationState) : nat :=
  length (m_tensorOps (m_state self)).

(** *** overlap *)

(** [Eigen::MatrixXcd::transposeInPlace] on the column-major buffer of a
    [dim] x [dim] matrix: entry (i, j) of the result is entry (j, i) of
    [mat], which sits at offset [j + i * dim].  ([mat] always has
    [dim * dim] entries here, so no offset is outside it.) *)
Definition transposeInPlace (dim : nat) (mat : list C) : list C :=
  flat_map (fun j => omap (fun i => mat !! (j + i * dim)%nat) (seq 0 dim))
           (seq 0 dim).

(** [op.isAdjoint = !op.isAdjoint]. *)
Definition flipAdjoint (op : AppliedTensorOp) : AppliedTensorOp :=
  mkOp (deviceData op) (targetQubitIds op) (controlQubitIds op)
       (negb (isAdjoint op)) (isUnitary op).

(** The body of the loop over the reversed copy of the other state's
    operators (lines 44-60).  [1 << size()] on line 49 is a shift of the
    [int] 1: it is the power of two written here for up to 30 target
    qubits and has no defined value beyond (see [shiftDefined] below); a
    matrix on 31 qubits would have [2^62] entries. *)
Definition conjugateOp (op : AppliedTensorOp) : M World AppliedTensorOp :=
  let op := flipAdjoint op in
  if negb (isUnitary op) then
    let dim := (2 ^ length (targetQubitIds op))%nat in
    (mat <- cudaMemcpyDeviceToHost (deviceData op) (dim * dim) ;;
     cudaMemcpyHostToDevice (deviceData op) (transposeInPlace dim mat) ;;;
     ret op)%cxx
  else ret op.

(** The body of the loop that feeds the temporary network (lines 77-96). *)
Definition applyOp (tempQuantumState : nat) (op : AppliedTensorOp) : M World unit :=
  match controlQubitIds op with
  | [] =>
      cutensornetStateApplyTensorOperator tempQuantumState
        (targetQubitIds op) (deviceData op) 1 (isAdjoint op) (isUnitary op)
  | _ :: _ =>
      cutensornetStateApplyControlledTensorOperator tempQuantumState
        (controlQubitIds op) (targetQubitIds op) (deviceData op) 1
        (isAdjoint op) (isUnitary op)
  end.

Definition overlap (self : TensorNetSimulationState) (other : SimulationState)
  : M World C :=
  match other with
  | OtherRepresentation _ => throw (runtime_error OverlapOtherType)
  | TensorNet tnOther =>
    (let tensorOps := m_tensorOps (m_state tnOther) in
     let tensorOps := rev tensorOps in
     tensorOps <- forM conjugateOp tensorOps ;;
     let nbQubits := (getNumQubits self `max` otherNumQubits other)%nat in
     let qubitDims := replicate nbQubits 2 in
     tempQuantumState <- cutensornetCreateState nbQubits qubitDims ;;
     let allTensorOps := m_tensorOps (m_state self) ++ tensorOps in
     forM_ (applyOp tempQuantumState) allTensorOps ;;;
     let projectedModes := seqZ 0 (Z.of_nat nbQubits) in
     let projectedModeValues := replicate nbQubits 0 in
     d_overlap <- cudaMalloc 1 ;;
     accessor <- cutensornetCreateAccessor tempQuantumState projectedModes ;;
     let numHyperSamples := 8 in
     cutensornetAccessorConfigure accessor numHyperSamples ;;;
     workDesc <- cutensornetCreateWorkspaceDescriptor ;;
     cutensornetAccessorPrepare accessor
       (Z.of_N (scratchSize (scratchPad self))) workDesc ;;;
     worksize <- cutensornetWorkspaceGetMemorySize workDesc ;;
     (if worksize <=? int64_of_size (scratchSize (scratchPad self))
      then cutensornetWorkspaceSetMemory workDesc
             (d_scratch (scratchPad self)) worksize
      else throw (runtime_error InsufficientWorkspace)) ;;;
     cutensornetAccessorCompute accessor projectedModeValues workDesc d_overlap ;;;
     h_overlap <- cudaMemcpyDeviceToHost d_overlap 1 ;;
     cudaFree d_overlap ;;;
     cutensornetDestroyWorkspaceDescriptor workDesc ;;;
     cutensornetDestroyAccessor accessor ;;;
     cutensornetDestroyState tempQuantumState ;;;
     match h_overlap with
     | z :: _ => ret (cabs z)
     | [] => throw memory_fault
     end)%cxx
  end.

(** *** getAmplitude *)

(** The lambda of the [std::accumulate] (line 192), on [std::size_t]. *)
Definition accBit (acc bit : Z) : Z :=
  wrap64 (wrap64 (Z.shiftl acc 1) + wrap64 bit).

(** [std::accumulate] over the reverse iterators of [basisState], from
    [0ull]. *)
Definition basisIndex (basisState : list Z) : Z :=
  fold_left accBit (rev basisState) 0.

(** The lambda of the [std::any_of] (line 176). *)
Definition notBit (x : Z) : bool := negb (x =? 0) && negb (x =? 1).

Definition setCache (v : list C) (self : TensorNetSimulationState) :=
  mkSim (m_state self) v (scratchPad self).

(** [getAmplitude] runs on the manager (whose cache it may fill) and the
    world. *)
Definition getAmplitude (basisState : list Z)
  : M (TensorNetSimulationState * World) C :=
  (self <- gets fst ;;
   if negb (getNumQubits self =? length basisState)%nat then
     throw (runtime_error
              (InvalidNumberOfBits (getNumQubits self) (length basisState)))
   else if existsb notBit basisState then
     throw (runtime_error InvalidBasisState)
   else if vec_empty basisState then
     throw (runtime_error EmptyBasisState)
   else if (tn_numQubits (m_state self) <=? g_maxQubitsForStateContraction)%nat then
     (if vec_empty (m_contractedStateVec self) then
        v <- lift_snd (getStateVector (m_state self) [] []) ;;
        modify (fun '(s, w) => (setCache v s, w))
      else ret tt) ;;;
     self <- gets fst ;;
     assert (Z.of_nat (length (m_contractedStateVec self))
               =? wrap64 (Z.shiftl 1 (Z.of_nat (tn_numQubits (m_state self))))) ;;;
     let idx := basisIndex basisState in
     match m_contractedStateVec self !! Z.to_nat idx with
     | Some a => ret a
     | None => throw memory_fault
     end
   else
     let projectedModes := seqZ 0 (Z.of_nat (tn_numQubits (m_state self))) in
     let projectedModeValues := basisState in
     subStateVec <- lift_snd
       (getStateVector (m_state self) projectedModes projectedModeValues) ;;
     assert (length subStateVec =? 1)%nat ;;;
     match subStateVec !! 0%nat with
     | Some a => ret a
     | None => throw memory_fault
     end)%cxx.

(** *** getTensor *)

Definition getTensor (self : TensorNetSimulationState) (tensorIdx : nat)
  : result Tensor :=
  if (getNumTensors self <=? tensorIdx)%nat then
    Throw (out_of_range InvalidTensorIndex)
  else
    match m_tensorOps (m_state self) !! tensorIdx with
    | Some opTensor =>
        Ok (mkTensor (deviceData opTensor)
                     (replicate (2 * length (targetQubitIds opTensor)) 2%nat)
                     getPrecision)
    | None => Throw memory_fault
    end.

(** *** toHost *)

(** [clientAllocatedData[i] = x], on a caller's buffer of known extent. *)
Definition storeAt (i : nat) (x : C) (buf : list C) : M World (list C) :=
  if (i <? length buf)%nat then ret (<[i := x]> buf) else throw memory_fault.

(** The copy loop, for [i] from [i0] on, [n] rounds. *)
Fixpoint copyLoop (stateVec : list C) (i n : nat) (buf : list C)
  : M World (list C) :=
  match n with
  | O => ret buf
  | S n' =>
      match stateVec !! i with
      | Some x => (buf <- storeAt i x buf ;; copyLoop stateVec (S i) n' buf)%cxx
      | None => throw memory_fault
      end
  end.

(** [toHost] is a const method: the manager is read, never written.  The
    result is the caller's buffer after the call. *)
Definition toHost (self : TensorNetSimulationState)
    (clientAllocatedData : list C) (numElements : nat) : M World (list C) :=
  (stateVec <- getStateVector (m_state self) [] [] ;;
   if negb (length stateVec =? numElements)%nat then
     throw (runtime_error (DimensionMismatch (length stateVec) numElements))
   else copyLoop stateVec 0 numElements clientAllocatedData)%cxx.

End Model.

Arguments World C : clear implicits.
Arguments Backend C : clear implicits.
Arguments TensorNetSimulationState C : clear implicits.
Arguments SimulationState C : clear implicits.

(** ** Vocabulary of the statements

    What [overlap] is expected to do to device memory and which calls it is
    expected to make, written as plain functions of its arguments, to be
    compared with what the code above does. *)

Section Vocabulary.
Context {C : Type}.

(** Number of entries of the matrix of an operator on its target qubits. *)
Definition matSize (op : AppliedTensorOp) : nat :=
  (2 ^ length (targetQubitIds op) * 2 ^ length (targetQubitIds op))%nat.

(** Device memory after the matrix of a non-unitary [op] was transposed
    where it lies. *)
Definition transposeAt (op : AppliedTensorOp) (d : gmap nat (list C))
  : gmap nat (list C) :=
  if isUnitary op then d
  else match d !! deviceData op with
       | Some l =>
           if (matSize op <=? length l)%nat then
             <[deviceData op :=
                 transposeInPlace (2 ^ length (targetQubitIds op))
                                  (take (matSize op) l) ++ drop (matSize op) l]> d
           else d
       | None => d
       end.

Definition transposeAll (ops : list AppliedTensorOp) (d : gmap nat (list C))
  : gmap nat (list C) :=
  fold_left (fun d op => transposeAt op d) ops d.

(** The device holds the whole matrix of every non-unitary operator. *)
Definition dataReady (d : gmap nat (list C)) (op : AppliedTensorOp) : Prop :=
  isUnitary op = false ->
  exists l, d !! deviceData op = Some l /\ (matSize op <= length l)%nat.

(** The shift [1 << size()] of line 49 has a defined value: fewer than 31
    target qubits on every operator that is transposed. *)
Definition shiftDefined (op : AppliedTensorOp) : Prop :=
  isUnitary op = false -> (length (targetQubitIds op) < 31)%nat.

(** An operator with its adjoint flag negated and everything else kept. *)
Definition negatedAdjoint (op : AppliedTensorOp) : AppliedTensorOp :=
  match op with
  | mkOp data targets controls adjoint unitary =>
      mkOp data targets controls (if adjoint then false else true) unitary
  end.

(** The two copies made for a non-unitary operator. *)
Definition conjCalls (op : AppliedTensorOp) : list Call :=
  if isUnitary op then []
  else [CudaMemcpyDeviceToHost (deviceData op) (matSize op);
        CudaMemcpyHostToDevice (deviceData op) (matSize op)].

(** The call that appends [op] to the temporary network [st]. *)
Definition applyCall (st : nat) (op : AppliedTensorOp) : Call :=
  match controlQubitIds op with
  | [] => CutnStateApplyTensorOperator st (targetQubitIds op) (deviceData op) 1
            (isAdjoint op) (isUnitary op)
  | _ :: _ => CutnStateApplyControlledTensorOperator st (controlQubitIds op)
                (targetQubitIds op) (deviceData op) 1 (isAdjoint op) (isUnitary op)
  end.

(** The operators of the temporary network: the ket side as it is, then the
    bra side reversed with every adjoint flag negated. *)
Definition queryOps (ket bra : list AppliedTensorOp) : list AppliedTensorOp :=
  ket ++ (flipAdjoint <$> rev bra).

(** The calls of the accessor query, from the allocation of the result
    scalar up to the size request: [st], [acc], [ws] are the handles of the
    temporary network, the accessor and the workspace descriptor, [out] the
    address of the result scalar. *)
Definition prepareCalls (st acc ws : nat) (nb : nat) (pool : ScratchDeviceMem)
  : list Call :=
  [CudaMalloc 1;
   CutnCreateAccessor st (seqZ 0 (Z.of_nat nb));
   CutnAccessorConfigure acc 8;
   CutnCreateWorkspaceDescriptor;
   CutnAccessorPrepare acc (Z.of_N (scratchSize pool)) ws;
   CutnWorkspaceGetMemorySize ws].

(** The calls that follow when the workspace fits. *)
Definition computeCalls (st acc ws out : nat) (nb : nat)
    (pool : ScratchDeviceMem) (worksize : Z) : list Call :=
  [CutnWorkspaceSetMemory ws (d_scratch pool) worksize;
   CutnAccessorCompute acc (replicate nb 0) ws out;
   CudaMemcpyDeviceToHost out 1;
   CudaFree out;
   CutnDestroyWorkspaceDescriptor ws;
   CutnDestroyAccessor acc;
   CutnDestroyState st].

(** Little-endian value of a list of bits: the sum of [b_i * 2^i]. *)
Definition littleEndian (b : list Z) : Z :=
  foldr Z.add 0 (imap (fun i x => x * 2 ^ Z.of_nat i) b).

(** Every entry is 0 or 1. *)
Definition allBits (b : list Z) : Prop := Forall (fun x => x = 0 \/ x = 1) b.

(** The three exceptions [getAmplitude] throws on its argument. *)
Definition invalidArgument (e : exn) : Prop :=
  (exists n k, e = runtime_error (InvalidNumberOfBits n k))
  \/ e = runtime_error InvalidBasisState
  \/ e = runtime_error EmptyBasisState.

(** How many times the whole state vector was requested. *)
Definition isFullContraction (c : Call) : bool :=
  match c with
  | TnGetStateVector _ [] [] => true
  | _ => false
  end.

Definition fullContractions (l : list Call) : nat :=
  length (List.filter isFullContraction l).

End Vocabulary.

(** ** Concrete worlds

    Instances on which the functions above run to a value.  Amplitudes are
    Gaussian integers (real part, imaginary part); their magnitude is the
    integer square root of the squared norm. *)

Module Examples.

Definition Cx : Type := Z * Z.

Definition cabs (z : Cx) : Cx := (Z.sqrt (fst z * fst z + snd z * snd z), 0).

(** A dense vector whose entry [k] is the number [k], and a pinned
    amplitude that is the little-endian value of the pinned bits. *)
Definition iota_vector (net : TensorNetState) (modes values : list Z) : list Cx :=
  match modes with
  | [] => (fun k => (k, 0)) <$> seqZ 0 (2 ^ Z.of_nat (tn_numQubits net))
  | _ :: _ => [(basisIndex values, 0)]
  end.

(** Every call succeeds; the plan asks for [need] bytes of workspace; the
    contraction yields 3 + 4i. *)
Definition backend (need : Z) : Backend Cx :=
  mkBackend (fun _ => true) (0, 0) (fun _ _ _ => need)
            (fun _ _ _ _ => (3, 4)) (fun _ => iota_vector).

Definition pool : ScratchDeviceMem := mkScratch 0 1024%N.

(** A Hadamard on qubit 0 and a controlled NOT (control 0, target 1), with
    their tensors at device addresses 1 and 2. *)
Definition h0 : AppliedTensorOp := mkOp 1 [0] [] false true.
Definition cx01 : AppliedTensorOp := mkOp 2 [1] [0] false true.

(** A projector on qubit 0 (not unitary), with its tensor at address 3. *)
Definition proj0 : AppliedTensorOp := mkOp 3 [0] [] false false.

Definition bell : TensorNetSimulationState Cx :=
  mkSim (mkNet 2 [h0; cx01]) [] pool.

Definition projected : TensorNetSimulationState Cx :=
  mkSim (mkNet 1 [h0; proj0]) [] pool.

Definition no_qubits : TensorNetSimulationState Cx :=
  mkSim (mkNet 0 []) [] pool.

(** Device memory: the scratch pool at 0, the three gate tensors (column
    major), the projector's being [[10 20] [30 40]] written by columns. *)
Definition dev0 : gmap nat (list Cx) :=
  <[0%nat := []]>
  (<[1%nat := [(1, 0); (1, 0); (1, 0); (-1, 0)]]>
   (<[2%nat := [(0, 0); (1, 0); (1, 0); (0, 0)]]>
    (<[3%nat := [(10, 0); (30, 0); (20, 0); (40, 0)]]> ∅))).

Definition world0 : World Cx := mkWorld dev0 ∅ ∅ ∅ [].

End Examples.

(** ** The rest of the class: getTensors, dump, destroyState,
       createFromSizeAndPtr *)

Section RestOfClass.
Context {C : Type}.
Variable getPrecision : precision.
Variable backend : Backend C.

(** *** getTensors *)

(** The body of the loop of [getTensors] (lines 225-230): the tensor built
    from one operator and appended with [emplace_back]. *)
Definition emplaceTensor (tensors : list Tensor) (op : AppliedTensorOp)
  : list Tensor :=
  let tensor :=
    mkTensor (deviceData op)
             (replicate (2 * length (targetQubitIds op)) 2%nat)
             getPrecision in
  tensors ++ [tensor].

Definition getTensors (self : TensorNetSimulationState C) : list Tensor :=
  fold_left emplaceTensor (m_tensorOps (m_state self)) [].

(** *** dump *)

(** What is written to the [std::ostream]: amplitudes and the string
    made of one line feed. *)
Inductive Output :=
| OutAmplitude (t : C)
| OutNewline.

(** The lambda [printState] (lines 275-278): [os << t << "\n"] for every
    entry. *)
Definition printState (os : list Output) (stateVec : list C) : list Output :=
  fold_left (fun os t => os ++ [OutAmplitude t; OutNewline]) stateVec os.

(** The object with [m_state] as the [std::unique_ptr] it is: it owns a
    network or is null. *)
Record Shell := mkShell {
  sh_state : option TensorNetState;
  sh_contractedStateVec : list C;
  sh_scratchPad : ScratchDeviceMem;
}.

(** A manager whose pointer owns its network. *)
Definition shellOf (self : TensorNetSimulationState C) : Shell :=
  mkShell (Some (m_state self)) (m_contractedStateVec self) (scratchPad self).

(** [m_state->...] on a null pointer is an access outside any object. *)
Definition deref (p : option TensorNetState) : M (World C) TensorNetState :=
  match p with
  | Some net => ret net
  | None => throw memory_fault
  end.

(** [dump] on the object as it is; the result is the stream afterwards. *)
Definition dumpShell (self : Shell) (os : list Output) : M (World C) (list Output) :=
  if negb (vec_empty (sh_contractedStateVec self)) then
    ret (printState os (sh_contractedStateVec self))
  else
    (net <- deref (sh_state self) ;;
     stateVec <- getStateVector backend net [] [] ;;
     ret (printState os stateVec))%cxx.

Definition dump (self : TensorNetSimulationState C) (os : list Output)
  : M (World C) (list Output) :=
  dumpShell (shellOf self) os.

(** *** destroyState

    [m_state.reset()]: the pointer becomes null, the rest of the object
    stays.  (The [cudaq::info] line goes to the process log, which is not
    part of the world modelled here.) *)
Definition destroyState (self : Shell) : Shell :=
  mkShell None (sh_contractedStateVec self) (sh_scratchPad self).

(** *** createFromSizeAndPtr *)

(** [cudaq::detail::variant_index<cudaq::state_data,
    cudaq::TensorStateData>()], a constant of the headers. *)
Variable tensorStateDataIndex : nat.

(** [TensorNetState::createFromStateVector], defined in
    tensornet_state.cpp: it builds a network for a dense vector, with
    whatever library calls that takes. *)
Variable createFromStateVector :
  list C -> ScratchDeviceMem -> M (World C) TensorNetState.

(** What [createFromSizeAndPtr] ends in, apart from the failures of the
    calls below it: the new manager, or the [std::runtime_error] "Cannot
    create tensornet backend's simulation state with MPS tensors." *)
Inductive Creation :=
| Created (state : TensorNetSimulationState C)
| CannotCreateFromMps.

(** [std::vector vec(ptr, ptr + size)] on a host buffer of known extent. *)
Definition vectorFromRange (ptr : list C) (size : nat) : M (World C) (list C) :=
  if (size <=? length ptr)%nat then ret (take size ptr) else throw memory_fault.

Definition createFromSizeAndPtr (self : TensorNetSimulationState C)
    (size : nat) (ptr : list C) (dataType : nat) : M (World C) Creation :=
  if (dataType =? tensorStateDataIndex)%nat then ret CannotCreateFromMps
  else
    (vec <- vectorFromRange ptr size ;;
     tensorNetState <- createFromStateVector vec (scratchPad self) ;;
     ret (Created (mkSim tensorNetState [] (scratchPad self))))%cxx.

End RestOfClass.

Arguments Output C : clear implicits.
Arguments Shell C : clear implicits.
Arguments Creation C : clear implicits.

(** ** More vocabulary *)

(** The other direction of [littleEndian]: the [n] low bits of [k], bit 0
    first. *)
Fixpoint bitsOf (n : nat) (k : Z) : list Z :=
  match n with
  | O => []
  | S n' => k mod 2 :: bitsOf n' (k / 2)
  end.

(** The amplitudes written to a stream, in order. *)
Definition amplitudesOf {C} (os : list (Output C)) : list C :=
  omap (fun o => match o with OutAmplitude t => Some t | OutNewline => None end) os.

(** Number of entries a tensor of the given extents holds. *)
Definition volume (extents : list nat) : nat := fold_right Nat.mul 1%nat extents.

(** The exceptions [overlap] can end in against a state of its own kind. *)
Definition overlapFailure (e : exn) : Prop :=
  (exists c, e = api_error c) \/ e = runtime_error InsufficientWorkspace.

(** The same libraries with every call reporting success. *)
Definition succeeding {C} (backend : Backend C) : Backend C :=
  mkBackend (fun _ => true) (junk backend) (plan_worksize backend)
            (amplitude backend) (state_vector backend).


(** Every run of [m] ends in a value satisfying [Q] or in an exception
    satisfying [P]. *)
Definition outcome {S A} (Q : A -> Prop) (P : exn -> Prop) (m : M S A) : Prop :=
  forall s, match fst (m s) with
            | Ok a => Q a
            | Throw e => P e
            end.

(** Wherever [m1] ends in a value or in an exception that is not the
    error of a library call, [m2] ends in the same way in the same state. *)
Definition refines {S A} (m1 m2 : M S A) : Prop :=
  forall s r s', m1 s = (r, s') -> (forall c, r <> Throw (api_error c)) ->
                 m2 s = (r, s').

(** ** More concrete instances *)

Module MoreExamples.

(** A stand-in for [TensorNetState::createFromStateVector]: a network over
    [log2] of the vector's length qubits whose single operator holds the
    vector, copied to a fresh device allocation. *)
Definition factory (vec : list Examples.Cx) (pool : ScratchDeviceMem)
  : M (World Examples.Cx) TensorNetState :=
  (p <- cudaMalloc (Examples.backend 64) (length vec) ;;
   cudaMemcpyHostToDevice (Examples.backend 64) p vec ;;;
   let n := Nat.log2 (length vec) in
   ret (mkNet n [mkOp p (seqZ 0 (Z.of_nat n)) [] false false]))%cxx.

(** The two-qubit manager after its vector was cached. *)
Definition bell_cached : TensorNetSimulationState Examples.Cx :=
  mkSim (m_state Examples.bell) [(7, 0); (0, 0); (0, 0); (7, 0)] Examples.pool.

(** A libraries instance whose state-vector contraction is refused. *)
Definition failing_backend : Backend Examples.Cx :=
  mkBackend (fun c => match c with TnGetStateVector _ _ _ => false | _ => true end)
            (0, 0) (fun _ _ _ => 64) (fun _ _ _ _ => (3, 4))
            (fun _ => Examples.iota_vector).


(** A bra whose operators carry both values of the adjoint flag: an
    adjoint Hadamard, a controlled NOT and a projector. *)
Definition mixed_bra : TensorNetSimulationState Examples.Cx :=
  mkSim (mkNet 2 [mkOp 1 [0] [] true true; Examples.cx01; Examples.proj0])
        [] Examples.pool.

(** A register of 70 qubits with no operator yet. *)
Definition wide : TensorNetSimulationState Examples.Cx :=
  mkSim (mkNet 70 []) [] Examples.pool.

End MoreExamples.

(** * Properties *)

(** ** The monad *)

Lemma bind_Ok {S A B} (m : M S A) (k : A -> M S B) s a s' :
  m s = (Ok a, s') -> bind m k s = k a s'.
Proof. intros H. unfold bind. now rewrite H. Qed.

Lemma bind_Throw {S A B} (m : M S A) (k : A -> M S B) s e s' :
  m s = (Throw e, s') -> bind m k s = (Throw e, s').
Proof. intros H. unfold bind. now rewrite H. Qed.

(** ** Fresh keys *)

Lemma fresh_key_None {V} (m : gmap nat V) : m !! fresh_key m = None.
Proof.
  destruct (m !! fresh_key m) as [v|] eqn:E; [|done].
  apply elem_of_map_to_list in E.
  assert (Hin : fresh_key m ∈ (map_to_list m).*1).
  { apply list_elem_of_fmap. exists (fresh_key m, v). done. }
  apply max_list_elem_of_le in Hin. unfold fresh_key in Hin. lia.
Qed.

(** ** Transposition *)

Section Transpose.
Context {C : Type}.

Lemma length_omap_all {A} (f : A -> option C) (l : list A) :
  Forall (fun x => is_Some (f x)) l -> length (omap f l) = length l.
Proof.
  induction 1 as [|x l [y Hy] _ IH]; [done|].
  cbn. rewrite Hy. cbn. now rewrite IH.
Qed.

Lemma length_flat_map_const {A} (f : A -> list C) (n : nat) (l : list A) :
  Forall (fun x => length (f x) = n) l ->
  length (flat_map f l) = (length l * n)%nat.
Proof.
  induction 1 as [|x l Hx _ IH]; [done|].
  cbn. rewrite length_app, Hx, IH. lia.
Qed.

Lemma length_transposeInPlace (dim : nat) (mat : list C) :
  length mat = (dim * dim)%nat ->
  length (transposeInPlace dim mat) = (dim * dim)%nat.
Proof.
  intros Hlen. unfold transposeInPlace.
  rewrite (length_flat_map_const _ dim), length_seq; [done|].
  apply list.Forall_forall. intros j Hj. apply elem_of_seq in Hj.
  rewrite length_omap_all, length_seq; [done|].
  apply list.Forall_forall. intros i Hi. apply elem_of_seq in Hi.
  apply lookup_lt_is_Some. nia.
Qed.

End Transpose.

(** ** overlap, step by step *)

Section OverlapRuns.
Context {C : Type}.
Variable cabs : C -> C.
Variable backend : Backend C.

(** Every library call reports success. *)
Hypothesis Hok : forall c, call_ok backend c = true.

Lemma api_run c d q a ws l :
  api backend c (mkWorld d q a ws l) = (Ok tt, mkWorld d q a ws (l ++ [c])).
Proof. unfold api. now rewrite Hok. Qed.

Lemma transposeAt_length (op : AppliedTensorOp) (d : gmap nat (list C)) p l :
  d !! p = Some l ->
  exists l', transposeAt op d !! p = Some l' /\ length l' = length l.
Proof.
  intros Hp. unfold transposeAt.
  destruct (isUnitary op); [eauto|].
  destruct (d !! deviceData op) as [m|] eqn:Hm; [|eauto].
  destruct (matSize op <=? length m)%nat eqn:Hle; [|eauto].
  apply Nat.leb_le in Hle.
  destruct (decide (deviceData op = p)) as [Heq|Hne].
  - rewrite Heq in *. rewrite lookup_insert_eq. eexists; split; [done|].
    assert (l = m) as -> by congruence.
    rewrite length_app, length_drop, length_transposeInPlace.
    + unfold matSize in *. lia.
    + rewrite length_take. unfold matSize in *. lia.
  - rewrite lookup_insert_ne by done. eauto.
Qed.

Lemma dataReady_transposeAt (op op' : AppliedTensorOp) (d : gmap nat (list C)) :
  dataReady d op -> dataReady (transposeAt op' d) op.
Proof.
  intros Hr Hu. destruct (Hr Hu) as (l & Hl & Hlen).
  destruct (transposeAt_length op' d _ _ Hl) as (l' & Hl' & Hlen').
  exists l'. split; [done|lia].
Qed.

Lemma conjugateOp_run op d q a ws l :
  dataReady d op ->
  conjugateOp backend op (mkWorld d q a ws l)
  = (Ok (flipAdjoint op), mkWorld (transposeAt op d) q a ws (l ++ conjCalls op)).
Proof.
  intros Hr. unfold conjugateOp, transposeAt, conjCalls.
  cbn [flipAdjoint isUnitary deviceData targetQubitIds].
  destruct (isUnitary op) eqn:Hu; cbn [negb].
  { unfold ret. now rewrite app_nil_r. }
  destruct (Hr Hu) as (m & Hm & Hlen).
  cbn [deviceData targetQubitIds]. fold (matSize op). rewrite Hm.
  assert (Hleb : (matSize op <=? length m)%nat = true) by now apply Nat.leb_le.
  rewrite Hleb.
  assert (Ht : length (transposeInPlace (2 ^ length (targetQubitIds op))
                         (take (matSize op) m)) = matSize op).
  { apply length_transposeInPlace. rewrite length_take. unfold matSize in *. lia. }
  unfold cudaMemcpyDeviceToHost, cudaMemcpyHostToDevice.
  erewrite bind_Ok; cycle 1.
  { erewrite bind_Ok by apply api_run.
    unfold bind, get, known. cbn [dev]. rewrite Hm. unfold ret.
    rewrite Hleb. reflexivity. }
  rewrite Ht.
  erewrite bind_Ok; cycle 1.
  { erewrite bind_Ok by apply api_run.
    unfold bind, get, known. cbn [dev]. rewrite Hm. unfold ret.
    rewrite Hleb. unfold put, with_dev. cbn. reflexivity. }
  unfold ret. rewrite <- app_assoc. reflexivity.
Qed.

Lemma forM_conjugateOp_run ops : forall d q a ws l,
  Forall (dataReady d) ops ->
  forM (conjugateOp backend) ops (mkWorld d q a ws l)
  = (Ok (flipAdjoint <$> ops),
     mkWorld (transposeAll ops d) q a ws (l ++ flat_map conjCalls ops)).
Proof.
  induction ops as [|op ops IH]; intros d q a ws l Hr.
  { cbn. unfold ret. now rewrite app_nil_r. }
  apply list.Forall_cons in Hr as [Hop Hr].
  cbn [forM].
  erewrite bind_Ok by (apply conjugateOp_run; exact Hop).
  erewrite bind_Ok; cycle 1.
  { apply IH. eapply list.Forall_impl; [exact Hr|].
    intros x Hx. now apply dataReady_transposeAt. }
  unfold ret. cbn [flat_map fmap list_fmap transposeAll fold_left].
  now rewrite <- app_assoc.
Qed.

Lemma applyOp_run st op Q d q a ws l :
  q !! st = Some Q ->
  applyOp backend st op (mkWorld d q a ws l)
  = (Ok tt, mkWorld d (<[st := append_op op Q]> q) a ws (l ++ [applyCall st op])).
Proof.
  intros HQ. unfold applyOp, applyCall.
  destruct op as [p t c adj uni]. cbn [controlQubitIds targetQubitIds deviceData
                                        isAdjoint isUnitary].
  destruct c as [|c0 c];
    [unfold cutensornetStateApplyTensorOperator
    |unfold cutensornetStateApplyControlledTensorOperator];
    (erewrite bind_Ok by apply api_run);
    unfold bind, get, known, put, with_qstates; cbn [qstates]; rewrite HQ;
    reflexivity.
Qed.

Lemma forM_applyOp_run st ops : forall Q d q a ws l,
  q !! st = Some Q ->
  forM_ (applyOp backend st) ops (mkWorld d q a ws l)
  = (Ok tt,
     mkWorld d (<[st := mkQState (qs_numQubits Q) (qs_dims Q) (qs_ops Q ++ ops)]> q)
             a ws (l ++ (applyCall st <$> ops))).
Proof.
  induction ops as [|op ops IH]; intros Q d q a ws l HQ.
  { cbn. unfold ret. rewrite !app_nil_r.
    destruct Q as [n ds os]. cbn. now rewrite insert_id. }
  cbn [forM_].
  erewrite bind_Ok by (apply applyOp_run; exact HQ).
  rewrite (IH (append_op op Q)) by apply lookup_insert_eq.
  rewrite insert_insert_eq. cbn [append_op qs_numQubits qs_dims qs_ops].
  rewrite <- !app_assoc. reflexivity.
Qed.

(** One lemma per library call: what it returns and the world it leaves
    when the library reports success. *)

Ltac prim_run :=
  intros;
  (erewrite bind_Ok by apply api_run);
  unfold bind, get, known, put, modify, ret,
    with_dev, with_qstates, with_accessors, with_workspaces;
  cbn [dev qstates accessors workspaces log];
  repeat match goal with
         | H : _ !! _ = Some _ |- _ => rewrite H
         | H : (_ <=? _)%nat = true |- _ => rewrite H
         end;
  reflexivity.

Lemma cudaMalloc_run n d q a ws l :
  cudaMalloc backend n (mkWorld d q a ws l)
  = (Ok (fresh_key d),
     mkWorld (<[fresh_key d := replicate n (junk backend)]> d) q a ws
             (l ++ [CudaMalloc n])).
Proof. unfold cudaMalloc. prim_run. Qed.

Lemma cudaMemcpyDeviceToHost_run src n L d q a ws l :
  d !! src = Some L -> (n <=? length L)%nat = true ->
  cudaMemcpyDeviceToHost backend src n (mkWorld d q a ws l)
  = (Ok (take n L), mkWorld d q a ws (l ++ [CudaMemcpyDeviceToHost src n])).
Proof. unfold cudaMemcpyDeviceToHost. prim_run. Qed.

Lemma cudaFree_run p d q a ws l :
  cudaFree backend p (mkWorld d q a ws l)
  = (Ok tt, mkWorld (delete p d) q a ws (l ++ [CudaFree p])).
Proof. unfold cudaFree. prim_run. Qed.

Lemma cutensornetCreateState_run nq dims d q a ws l :
  cutensornetCreateState backend nq dims (mkWorld d q a ws l)
  = (Ok (fresh_key q),
     mkWorld d (<[fresh_key q := mkQState nq dims []]> q) a ws
             (l ++ [CutnCreateState nq dims])).
Proof. unfold cutensornetCreateState. prim_run. Qed.

Lemma cutensornetCreateAccessor_run st modes Q d q a ws l :
  q !! st = Some Q ->
  cutensornetCreateAccessor backend st modes (mkWorld d q a ws l)
  = (Ok (fresh_key a),
     mkWorld d q (<[fresh_key a := mkAccessor st modes None]> a) ws
             (l ++ [CutnCreateAccessor st modes])).
Proof. unfold cutensornetCreateAccessor. prim_run. Qed.

Lemma cutensornetAccessorConfigure_run acc n A d q a ws l :
  a !! acc = Some A ->
  cutensornetAccessorConfigure backend acc n (mkWorld d q a ws l)
  = (Ok tt,
     mkWorld d q (<[acc := mkAccessor (acc_state A) (acc_modes A) (Some n)]> a) ws
             (l ++ [CutnAccessorConfigure acc n])).
Proof. unfold cutensornetAccessorConfigure. prim_run. Qed.

Lemma cutensornetCreateWorkspaceDescriptor_run d q a ws l :
  cutensornetCreateWorkspaceDescriptor backend (mkWorld d q a ws l)
  = (Ok (fresh_key ws),
     mkWorld d q a (<[fresh_key ws := mkWorkspace None None]> ws)
             (l ++ [CutnCreateWorkspaceDescriptor])).
Proof. unfold cutensornetCreateWorkspaceDescriptor. prim_run. Qed.

Lemma cutensornetAccessorPrepare_run acc budget wk A Q D d q a ws l :
  a !! acc = Some A -> q !! acc_state A = Some Q -> ws !! wk = Some D ->
  cutensornetAccessorPrepare backend acc budget wk (mkWorld d q a ws l)
  = (Ok tt,
     mkWorld d q a
       (<[wk := mkWorkspace (Some (plan_worksize backend Q A budget))
                            (ws_attached D)]> ws)
       (l ++ [CutnAccessorPrepare acc budget wk])).
Proof. unfold cutensornetAccessorPrepare. prim_run. Qed.

Lemma cutensornetWorkspaceGetMemorySize_run wk D d q a ws l :
  ws !! wk = Some D ->
  cutensornetWorkspaceGetMemorySize backend wk (mkWorld d q a ws l)
  = (Ok (default 0 (ws_required D)),
     mkWorld d q a ws (l ++ [CutnWorkspaceGetMemorySize wk])).
Proof. unfold cutensornetWorkspaceGetMemorySize. prim_run. Qed.

Lemma cutensornetWorkspaceSetMemory_run wk buf size D d q a ws l :
  ws !! wk = Some D ->
  cutensornetWorkspaceSetMemory backend wk buf size (mkWorld d q a ws l)
  = (Ok tt,
     mkWorld d q a (<[wk := mkWorkspace (ws_required D) (Some (buf, size))]> ws)
             (l ++ [CutnWorkspaceSetMemory wk buf size])).
Proof. unfold cutensornetWorkspaceSetMemory. prim_run. Qed.

Lemma cutensornetAccessorCompute_run acc values wk out A Q D L d q a ws l :
  a !! acc = Some A -> q !! acc_state A = Some Q -> ws !! wk = Some D ->
  d !! out = Some L ->
  cutensornetAccessorCompute backend acc values wk out (mkWorld d q a ws l)
  = (Ok tt,
     mkWorld (<[out := amplitude backend d Q A values :: drop 1 L]> d) q a ws
             (l ++ [CutnAccessorCompute acc values wk out])).
Proof. unfold cutensornetAccessorCompute. prim_run. Qed.

Lemma cutensornetDestroyWorkspaceDescriptor_run wk d q a ws l :
  cutensornetDestroyWorkspaceDescriptor backend wk (mkWorld d q a ws l)
  = (Ok tt, mkWorld d q a (delete wk ws)
                    (l ++ [CutnDestroyWorkspaceDescriptor wk])).
Proof. unfold cutensornetDestroyWorkspaceDescriptor. prim_run. Qed.

Lemma cutensornetDestroyAccessor_run acc d q a ws l :
  cutensornetDestroyAccessor backend acc (mkWorld d q a ws l)
  = (Ok tt, mkWorld d q (delete acc a) ws (l ++ [CutnDestroyAccessor acc])).
Proof. unfold cutensornetDestroyAccessor. prim_run. Qed.

Lemma cutensornetDestroyState_run st d q a ws l :
  cutensornetDestroyState backend st (mkWorld d q a ws l)
  = (Ok tt, mkWorld d (delete st q) a ws (l ++ [CutnDestroyState st])).
Proof. unfold cutensornetDestroyState. prim_run. Qed.

(** The whole of [overlap] when every library call succeeds: the value and
    the world on both sides of the workspace test. *)
Lemma overlap_run (self tnOther : TensorNetSimulationState C) d q a ws l :
  let ket := m_tensorOps (m_state self) in
  let bra := m_tensorOps (m_state tnOther) in
  let pool := scratchPad self in
  let nb := (getNumQubits self `max` getNumQubits tnOther)%nat in
  let d' := transposeAll (rev bra) d in
  let st := fresh_key q in
  let acc := fresh_key a in
  let wk := fresh_key ws in
  let out := fresh_key d' in
  let Q := mkQState nb (replicate nb 2) (queryOps ket bra) in
  let A := mkAccessor st (seqZ 0 (Z.of_nat nb)) (Some 8) in
  let need := plan_worksize backend Q A (Z.of_N (scratchSize pool)) in
  let l' := l ++ flat_map conjCalls (rev bra)
              ++ [CutnCreateState nb (replicate nb 2)]
              ++ (applyCall st <$> queryOps ket bra)
              ++ prepareCalls st acc wk nb pool in
  Forall (dataReady d) bra ->
  overlap cabs backend self (TensorNet tnOther) (mkWorld d q a ws l)
  = if need <=? int64_of_size (scratchSize pool) then
      (Ok (cabs (amplitude backend (<[out := [junk backend]]> d') Q A
                           (replicate nb 0))),
       mkWorld d' q a ws (l' ++ computeCalls st acc wk out nb pool need))
    else
      (Throw (runtime_error InsufficientWorkspace),
       mkWorld (<[out := [junk backend]]> d') (<[st := Q]> q) (<[acc := A]> a)
               (<[wk := mkWorkspace (Some need) None]> ws) l').
Proof.
  intros ket bra pool nb d' st acc wk out Q A need l' Hready.
  unfold overlap. cbn [otherNumQubits]. fold ket bra pool nb.
  erewrite bind_Ok; cycle 1.
  { apply forM_conjugateOp_run. now apply Forall_rev. }
  fold d'.
  erewrite bind_Ok by apply cutensornetCreateState_run. fold st.
  erewrite bind_Ok; cycle 1.
  { apply forM_applyOp_run. apply lookup_insert_eq. }
  rewrite insert_insert_eq. cbn [qs_numQubits qs_dims qs_ops app].
  fold (queryOps ket bra). fold Q.
  erewrite bind_Ok by apply cudaMalloc_run. fold out. cbn [replicate].
  erewrite bind_Ok; cycle 1.
  { eapply cutensornetCreateAccessor_run. apply lookup_insert_eq. }
  fold acc.
  erewrite bind_Ok; cycle 1.
  { eapply cutensornetAccessorConfigure_run. apply lookup_insert_eq. }
  rewrite insert_insert_eq. cbn [acc_state acc_modes]. fold A.
  erewrite bind_Ok by apply cutensornetCreateWorkspaceDescriptor_run. fold wk.
  erewrite bind_Ok; cycle 1.
  { eapply cutensornetAccessorPrepare_run; apply lookup_insert_eq. }
  rewrite insert_insert_eq. cbn [ws_attached]. fold pool need.
  erewrite bind_Ok; cycle 1.
  { eapply cutensornetWorkspaceGetMemorySize_run. apply lookup_insert_eq. }
  cbn [ws_required default from_option id].
  assert (Hl' : ((((((((l ++ flat_map conjCalls (rev bra))
              ++ [CutnCreateState nb (replicate nb 2)])
              ++ (applyCall st <$> queryOps ket bra))
              ++ [CudaMalloc 1])
              ++ [CutnCreateAccessor st (seqZ 0 (Z.of_nat nb))])
              ++ [CutnAccessorConfigure acc 8])
              ++ [CutnCreateWorkspaceDescriptor])
              ++ [CutnAccessorPrepare acc (Z.of_N (scratchSize pool)) wk])
              ++ [CutnWorkspaceGetMemorySize wk] = l').
  { unfold l', prepareCalls. rewrite <- !app_assoc. reflexivity. }
  rewrite Hl'. clear Hl'.
  destruct (need <=? int64_of_size (scratchSize pool)) eqn:Hfit; cbv iota.
  - erewrite bind_Ok; cycle 1.
    { eapply cutensornetWorkspaceSetMemory_run. apply lookup_insert_eq. }
    rewrite insert_insert_eq. cbn [ws_required].
    erewrite bind_Ok; cycle 1.
    { eapply cutensornetAccessorCompute_run; apply lookup_insert_eq. }
    rewrite insert_insert_eq. cbn [drop].
    erewrite bind_Ok; cycle 1.
    { eapply cudaMemcpyDeviceToHost_run; [apply lookup_insert_eq|reflexivity]. }
    erewrite bind_Ok by apply cudaFree_run.
    erewrite bind_Ok by apply cutensornetDestroyWorkspaceDescriptor_run.
    erewrite bind_Ok by apply cutensornetDestroyAccessor_run.
    erewrite bind_Ok by apply cutensornetDestroyState_run.
    cbn [take]. unfold ret.
    rewrite !delete_insert_id by apply fresh_key_None.
    unfold computeCalls. rewrite <- !app_assoc. reflexivity.
  - erewrite bind_Throw by reflexivity. reflexivity.
Qed.

End OverlapRuns.

(** ** The index fold of getAmplitude *)

Lemma existsb_notBit_false (b : list Z) :
  existsb notBit b = false <-> allBits b.
Proof.
  unfold allBits. induction b as [|x b IH]; cbn.
  { split; [constructor|done]. }
  rewrite orb_false_iff, IH, list.Forall_cons. unfold notBit.
  split; intros [Hx Hb]; (split; [|done]).
  - destruct (Z.eqb_spec x 0), (Z.eqb_spec x 1); cbn in Hx; auto; discriminate.
  - destruct Hx as [->| ->]; reflexivity.
Qed.

Lemma littleEndian_cons (x : Z) (b : list Z) :
  littleEndian (x :: b) = x + 2 * littleEndian b.
Proof.
  unfold littleEndian. cbn [imap foldr]. rewrite Z.mul_1_r. f_equal.
  assert (Hgen : forall (l : list Z) (f g : nat -> Z -> Z),
             (forall i y, f i y = 2 * g i y) ->
             foldr Z.add 0 (imap f l) = 2 * foldr Z.add 0 (imap g l)).
  { induction l as [|y l IH]; intros f g Hfg; cbn [imap foldr]; [lia|].
    rewrite Hfg, (IH (f ∘ S) (g ∘ S)); [lia|].
    intros i z. unfold compose. apply Hfg. }
  apply Hgen. intros i y. unfold compose.
  rewrite Nat2Z.inj_succ, Z.pow_succ_r by lia. lia.
Qed.

Lemma littleEndian_bound (b : list Z) :
  allBits b -> 0 <= littleEndian b < 2 ^ Z.of_nat (length b).
Proof.
  unfold allBits. induction 1 as [|x b Hx _ IH].
  { cbn. lia. }
  rewrite littleEndian_cons. cbn [length].
  rewrite Nat2Z.inj_succ, Z.pow_succ_r by lia. lia.
Qed.

(** The fold of the code, from the last qubit to the first, yields the
    little-endian value as long as that value fits [std::size_t]. *)
Lemma basisIndex_littleEndian (b : list Z) :
  allBits b -> (length b <= 64)%nat -> basisIndex b = littleEndian b.
Proof.
  unfold basisIndex. rewrite <- fold_left_rev_right, rev_involutive.
  intros Hb. induction Hb as [|x b Hx Hb IH]; intros Hlen; [reflexivity|].
  cbn [fold_right length] in *. rewrite IH by lia.
  rewrite littleEndian_cons.
  pose proof (littleEndian_bound b Hb) as Hbound.
  assert (Hpow : 2 * 2 ^ Z.of_nat (length b) <= 2 ^ 64).
  { rewrite <- Z.pow_succ_r by lia. apply Z.pow_le_mono_r; lia. }
  unfold accBit, wrap64. rewrite Z.shiftl_mul_pow2, Z.pow_1_r by lia.
  rewrite (Z.mod_small (littleEndian b * 2)) by lia.
  rewrite (Z.mod_small x) by (destruct Hx; subst; lia).
  rewrite Z.mod_small by (destruct Hx; subst; lia).
  lia.
Qed.

(** ** getAmplitude, branch by branch *)

Section AmplitudeRuns.
Context {C : Type}.
Variable g_maxQubitsForStateContraction : nat.
Variable backend : Backend C.

Local Abbreviation amplitudeOf :=
  (getAmplitude g_maxQubitsForStateContraction backend).

Lemma getAmplitude_wrong_length b (self : TensorNetSimulationState C) w :
  length b <> getNumQubits self ->
  amplitudeOf b (self, w)
  = (Throw (runtime_error (InvalidNumberOfBits (getNumQubits self) (length b))),
     (self, w)).
Proof.
  intros Hlen. unfold getAmplitude, bind, gets. cbn [fst].
  destruct (Nat.eqb_spec (getNumQubits self) (length b)); [congruence|].
  reflexivity.
Qed.

Lemma getAmplitude_not_bits b (self : TensorNetSimulationState C) w :
  length b = getNumQubits self -> ~ allBits b ->
  amplitudeOf b (self, w) = (Throw (runtime_error InvalidBasisState), (self, w)).
Proof.
  intros Hlen Hbits. unfold getAmplitude, bind, gets. cbn [fst].
  rewrite Hlen, Nat.eqb_refl. cbn [negb].
  destruct (existsb notBit b) eqn:E; [reflexivity|].
  now apply existsb_notBit_false in E.
Qed.

Lemma getAmplitude_empty (self : TensorNetSimulationState C) w :
  getNumQubits self = 0%nat ->
  amplitudeOf [] (self, w) = (Throw (runtime_error EmptyBasisState), (self, w)).
Proof.
  intros Hlen. unfold getAmplitude, bind, gets. cbn [fst].
  rewrite Hlen. reflexivity.
Qed.

(** The assertion on the size of the cached vector holds for a vector of
    [2^n] entries that fits [std::size_t]. *)
Lemma size_assertion (v : list C) (n : nat) :
  length v = (2 ^ n)%nat -> (n < 64)%nat ->
  (Z.of_nat (length v) =? wrap64 (Z.shiftl 1 (Z.of_nat n))) = true.
Proof.
  intros Hv Hn. apply Z.eqb_eq. rewrite Hv, Nat2Z.inj_pow.
  unfold wrap64. rewrite Z.shiftl_mul_pow2, Z.mul_1_l by lia.
  rewrite Z.mod_small; [reflexivity|].
  split; [apply Z.pow_nonneg; lia|apply Z.pow_lt_mono_r; lia].
Qed.

Lemma index_in_range (v : list C) (b : list Z) :
  allBits b -> length v = (2 ^ length b)%nat -> (length b < 64)%nat ->
  exists a, v !! Z.to_nat (basisIndex b) = Some a.
Proof.
  intros Hb Hv Hn. apply lookup_lt_is_Some.
  rewrite basisIndex_littleEndian by (done || lia).
  pose proof (littleEndian_bound b Hb) as Hbound.
  rewrite Hv. apply Nat2Z.inj_lt. rewrite Nat2Z.inj_pow, Z2Nat.id by lia.
  exact (proj2 Hbound).
Qed.

(** Small system, nothing cached yet: one full contraction, kept. *)
Lemma getAmplitude_small_first b (self : TensorNetSimulationState C) w :
  let net := m_state self in
  let sv := state_vector backend (dev w) net [] [] in
  length b = getNumQubits self -> allBits b -> b <> [] ->
  (getNumQubits self <= g_maxQubitsForStateContraction)%nat ->
  (getNumQubits self < 64)%nat ->
  call_ok backend (TnGetStateVector net [] []) = true ->
  length sv = (2 ^ getNumQubits self)%nat ->
  m_contractedStateVec self = [] ->
  exists a, sv !! Z.to_nat (basisIndex b) = Some a /\
    amplitudeOf b (self, w)
    = (Ok a, (setCache sv self,
              with_log (fun l => l ++ [TnGetStateVector net [] []]) w)).
Proof.
  intros net sv Hlen Hbits Hne Hthr H64 Hok Hsv Hcache. subst sv net.
  assert (Hsv' := Hsv). rewrite <- Hlen in Hsv'.
  destruct (index_in_range _ b Hbits Hsv') as [a Ha]; [lia|].
  exists a. split; [exact Ha|].
  unfold getAmplitude, bind, gets. cbn [fst].
  rewrite Hlen, Nat.eqb_refl. cbn [negb].
  rewrite (proj2 (existsb_notBit_false b) Hbits).
  destruct b as [|x b]; [done|]. cbn [vec_empty].
  unfold getNumQubits in *.
  rewrite (proj2 (Nat.leb_le _ _) Hthr).
  rewrite Hcache. cbn [vec_empty].
  unfold lift_snd, getStateVector, bind, api, get, ret, modify. rewrite Hok.
  cbn [fst snd dev with_log log setCache m_state m_contractedStateVec].
  rewrite (size_assertion _ _ Hsv H64). unfold assert, ret.
  rewrite Ha. reflexivity.
Qed.

(** Small system, vector already cached: no call at all. *)
Lemma getAmplitude_small_cached b (self : TensorNetSimulationState C) w :
  length b = getNumQubits self -> allBits b -> b <> [] ->
  (getNumQubits self <= g_maxQubitsForStateContraction)%nat ->
  (getNumQubits self < 64)%nat ->
  length (m_contractedStateVec self) = (2 ^ getNumQubits self)%nat ->
  exists a, m_contractedStateVec self !! Z.to_nat (basisIndex b) = Some a /\
    amplitudeOf b (self, w) = (Ok a, (self, w)).
Proof.
  intros Hlen Hbits Hne Hthr H64 Hsv.
  assert (Hsv' := Hsv). rewrite <- Hlen in Hsv'.
  destruct (index_in_range _ b Hbits Hsv') as [a Ha]; [lia|].
  exists a. split; [exact Ha|].
  unfold getAmplitude, bind, gets. cbn [fst].
  rewrite Hlen, Nat.eqb_refl. cbn [negb].
  rewrite (proj2 (existsb_notBit_false b) Hbits).
  destruct b as [|x b]; [done|]. cbn [vec_empty].
  unfold getNumQubits in *.
  rewrite (proj2 (Nat.leb_le _ _) Hthr).
  destruct (m_contractedStateVec self) as [|c0 cache] eqn:Hcache.
  { cbn in Hsv. pose proof (Nat.pow_nonzero 2 (tn_numQubits (m_state self))). lia. }
  cbn [vec_empty]. unfold ret. cbn [fst]. rewrite Hcache.
  rewrite (size_assertion _ _ Hsv H64). unfold assert, ret.
  rewrite Ha. reflexivity.
Qed.

(** Large system: one accessor query with every qubit pinned. *)
Lemma getAmplitude_large b (self : TensorNetSimulationState C) w :
  let net := m_state self in
  let modes := seqZ 0 (Z.of_nat (getNumQubits self)) in
  let sub := state_vector backend (dev w) net modes b in
  length b = getNumQubits self -> allBits b -> b <> [] ->
  (g_maxQubitsForStateContraction < getNumQubits self)%nat ->
  call_ok backend (TnGetStateVector net modes b) = true ->
  length sub = 1%nat ->
  exists a, sub = [a] /\
    amplitudeOf b (self, w)
    = (Ok a, (self, with_log (fun l => l ++ [TnGetStateVector net modes b]) w)).
Proof.
  intros net modes sub Hlen Hbits Hne Hthr Hok Hsub. subst sub modes net.
  destruct (state_vector _ _ _ _ _) as [|a [|? ?]] eqn:Esub; try discriminate.
  exists a. split; [reflexivity|].
  unfold getAmplitude, bind, gets. cbn [fst].
  rewrite Hlen, Nat.eqb_refl. cbn [negb].
  rewrite (proj2 (existsb_notBit_false b) Hbits).
  destruct b as [|x b]; [done|]. cbn [vec_empty].
  unfold getNumQubits in *.
  rewrite (proj2 (Nat.leb_gt _ _) Hthr).
  unfold lift_snd, getStateVector, bind, api, get, ret. rewrite Hok.
  cbn [fst snd dev with_log log]. rewrite Esub. reflexivity.
Qed.

End AmplitudeRuns.

(** ** overlap: what it builds, what it leaves behind *)

Lemma transposeAll_unitary {C} (ops : list AppliedTensorOp) (d : gmap nat (list C)) :
  Forall (fun op => isUnitary op = true) ops -> transposeAll ops d = d.
Proof.
  induction 1 as [|op ops Hop _ IH]; [reflexivity|].
  cbn. unfold transposeAt at 2. rewrite Hop. exact IH.
Qed.

(** The successful run, for any pair of states: value and log. *)
Lemma overlap_success {C} (cabs : C -> C) (backend : Backend C)
    (self tnOther : TensorNetSimulationState C) (w : World C) :
  let ket := m_tensorOps (m_state self) in
  let bra := m_tensorOps (m_state tnOther) in
  let pool := scratchPad self in
  let nb := (getNumQubits self `max` getNumQubits tnOther)%nat in
  let st := fresh_key (qstates w) in
  let acc := fresh_key (accessors w) in
  let wk := fresh_key (workspaces w) in
  let out := fresh_key (transposeAll (rev bra) (dev w)) in
  let Q := mkQState nb (replicate nb 2) (ket ++ (flipAdjoint <$> rev bra)) in
  let A := mkAccessor st (seqZ 0 (Z.of_nat nb)) (Some 8) in
  let need := plan_worksize backend Q A (Z.of_N (scratchSize pool)) in
  (forall c, call_ok backend c = true) ->
  Forall (dataReady (dev w)) bra ->
  need <= int64_of_size (scratchSize pool) ->
  exists w',
    overlap cabs backend self (TensorNet tnOther) w
    = (Ok (cabs (amplitude backend
                   (<[out := [junk backend]]> (transposeAll (rev bra) (dev w)))
                   Q A (replicate nb 0))), w')
    /\ log w' = log w
         ++ flat_map conjCalls (rev bra)
         ++ [CutnCreateState nb (replicate nb 2)]
         ++ (applyCall st <$> (ket ++ (flipAdjoint <$> rev bra)))
         ++ prepareCalls st acc wk nb pool
         ++ computeCalls st acc wk out nb pool need.
Proof.
  intros ket bra pool nb st acc wk out Q A need Hok Hready Hfit.
  destruct w as [d q a ws l]. cbn [dev qstates accessors workspaces log] in *.
  pose proof (overlap_run cabs backend Hok self tnOther d q a ws l Hready) as Hrun.
  cbn zeta in Hrun. unfold queryOps in Hrun.
  fold ket bra pool nb st acc wk out Q A need in Hrun.
  rewrite (proj2 (Z.leb_le _ _) Hfit) in Hrun.
  eexists. split; [exact Hrun|]. cbn [log].
  rewrite <- !app_assoc. reflexivity.
Qed.

Lemma flipAdjoint_negatedAdjoint (ops : list AppliedTensorOp) :
  flipAdjoint <$> ops = negatedAdjoint <$> ops.
Proof.
  induction ops as [|[p t c adj u] ops IH]; [reflexivity|].
  rewrite !fmap_cons, IH. now destruct adj.
Qed.

(** C4.  When the library calls succeed, the matrices of the non-unitary
    operators are on the device (those operators having fewer than 31
    target qubits) and the planned workspace is at most the pool size as
    line 137 reads it, [overlap] makes the following calls, in this order:
    the copies for the non-unitary operators of the reversed bra list; the
    creation of a temporary network over [max] of the two qubit counts; one
    append per operator of the ket list as it is, followed by one append
    per operator of the bra list taken in reverse order with its adjoint
    flag negated and nothing else changed; the accessor over all qubits,
    configured with 8 hyper samples; the computation at the all-zero
    assignment; the releases.  It returns the magnitude of the amplitude
    the accessor computed on that network. *)
Theorem overlap_builds_query {C} (cabs : C -> C) (backend : Backend C)
    (self tnOther : TensorNetSimulationState C) (w : World C) :
  let ket := m_tensorOps (m_state self) in
  let bra := m_tensorOps (m_state tnOther) in
  let pool := scratchPad self in
  let nb := (getNumQubits self `max` getNumQubits tnOther)%nat in
  let st := fresh_key (qstates w) in
  let acc := fresh_key (accessors w) in
  let wk := fresh_key (workspaces w) in
  let out := fresh_key (transposeAll (rev bra) (dev w)) in
  let Q := mkQState nb (replicate nb 2) (ket ++ (negatedAdjoint <$> rev bra)) in
  let A := mkAccessor st (seqZ 0 (Z.of_nat nb)) (Some 8) in
  let need := plan_worksize backend Q A (Z.of_N (scratchSize pool)) in
  (forall c, call_ok backend c = true) ->
  Forall (dataReady (dev w)) bra ->
  Forall shiftDefined bra ->
  need <= int64_of_size (scratchSize pool) ->
  exists w',
    overlap cabs backend self (TensorNet tnOther) w
    = (Ok (cabs (amplitude backend
                   (<[out := [junk backend]]> (transposeAll (rev bra) (dev w)))
                   Q A (replicate nb 0))), w')
    /\ log w' = log w
         ++ flat_map conjCalls (rev bra)
         ++ [CutnCreateState nb (replicate nb 2)]
         ++ (applyCall st <$> (ket ++ (negatedAdjoint <$> rev bra)))
         ++ prepareCalls st acc wk nb pool
         ++ computeCalls st acc wk out nb pool need.
Proof.
  intros ket bra pool nb st acc wk out Q A need Hok Hready _ Hfit.
  subst need A Q. rewrite <- flipAdjoint_negatedAdjoint in *.
  now apply overlap_success.
Qed.

Lemma overlap_builds_query_witness :
  exists w',
    overlap Examples.cabs (Examples.backend 64) Examples.bell
            (TensorNet MoreExamples.mixed_bra) Examples.world0
    = (Ok (5, 0), w')
    /\ log w'
       = [CudaMemcpyDeviceToHost 3 4; CudaMemcpyHostToDevice 3 4;
          CutnCreateState 2 [2; 2];
          CutnStateApplyTensorOperator 1 [0] 1 1 false true;
          CutnStateApplyControlledTensorOperator 1 [0] [1] 2 1 false true;
          CutnStateApplyTensorOperator 1 [0] 3 1 true false;
          CutnStateApplyControlledTensorOperator 1 [0] [1] 2 1 true true;
          CutnStateApplyTensorOperator 1 [0] 1 1 false true;
          CudaMalloc 1; CutnCreateAccessor 1 [0; 1];
          CutnAccessorConfigure 1 8; CutnCreateWorkspaceDescriptor;
          CutnAccessorPrepare 1 1024 1; CutnWorkspaceGetMemorySize 1;
          CutnWorkspaceSetMemory 1 0 64; CutnAccessorCompute 1 [0; 0] 1 4;
          CudaMemcpyDeviceToHost 4 1; CudaFree 4;
          CutnDestroyWorkspaceDescriptor 1; CutnDestroyAccessor 1;
          CutnDestroyState 1].
Proof.
  destruct (overlap_builds_query Examples.cabs (Examples.backend 64)
              Examples.bell MoreExamples.mixed_bra Examples.world0)
    as (w' & Hrun & Hlog).
  - intros c. reflexivity.
  - repeat constructor; intros Hu; try discriminate.
    eexists. split; [reflexivity|]. vm_compute. lia.
  - repeat (constructor; [intros Hu; try discriminate; vm_compute; lia|]).
    constructor.
  - vm_compute. discriminate.
  - exists w'. split; [exact Hrun|]. rewrite Hlog. vm_compute. reflexivity.
Defined.

(** C3, as the claim has it, fails: with a ket of zero qubits and a bra of
    two, [overlap] throws nothing, runs the contraction and returns its
    magnitude. *)
Lemma overlap_zero_qubits_counterexample :
  getNumQubits Examples.no_qubits = 0%nat
  /\ fst (overlap Examples.cabs (Examples.backend 64) Examples.no_qubits
            (TensorNet Examples.bell) Examples.world0) = Ok (5, 0)
  /\ In (CutnAccessorCompute 1 [0; 0] 1 4)
        (log (snd (overlap Examples.cabs (Examples.backend 64) Examples.no_qubits
                     (TensorNet Examples.bell) Examples.world0))).
Proof.
  split; [reflexivity|]. split; [vm_compute; reflexivity|].
  vm_compute. tauto.
Qed.

(** C1 on the code.  The bra state [projected] holds a non-unitary
    operator whose matrix lies at device address 3.  After a successful
    [overlap] against it, that matrix is stored transposed: the device data
    of the other state is not what it was before the call. *)
Theorem overlap_transposes_other_device_data :
  let r := overlap Examples.cabs (Examples.backend 64) Examples.bell
             (TensorNet Examples.projected) Examples.world0 in
  In Examples.proj0 (m_tensorOps (m_state Examples.projected))
  /\ dev Examples.world0 !! deviceData Examples.proj0
     = Some [(10, 0); (30, 0); (20, 0); (40, 0)]
  /\ fst r = Ok (5, 0)
  /\ dev (snd r) !! deviceData Examples.proj0
     = Some [(10, 0); (20, 0); (30, 0); (40, 0)].
Proof.
  cbn zeta. split; [cbn; tauto|]. repeat split; vm_compute; reflexivity.
Qed.

(** What a successful [overlap] does to device memory in general: it is the
    memory before the call with the matrix of every non-unitary operator of
    the other state transposed where it lies; nothing else differs, and no
    handle or allocation of the call survives it. *)
Lemma overlap_device_memory {C} (cabs : C -> C) (backend : Backend C)
    (self tnOther : TensorNetSimulationState C) (w : World C) z w' :
  (forall c, call_ok backend c = true) ->
  Forall (dataReady (dev w)) (m_tensorOps (m_state tnOther)) ->
  overlap cabs backend self (TensorNet tnOther) w = (Ok z, w') ->
  dev w' = transposeAll (rev (m_tensorOps (m_state tnOther))) (dev w)
  /\ qstates w' = qstates w
  /\ accessors w' = accessors w
  /\ workspaces w' = workspaces w.
Proof.
  intros Hok Hready. destruct w as [d q a ws l]. cbn [dev] in Hready.
  rewrite (overlap_run cabs backend Hok self tnOther d q a ws l Hready).
  cbn zeta. destruct (_ <=? _); [|discriminate].
  intros [= _ <-]. cbn. tauto.
Qed.

(** With only unitary operators on the other side, device memory is left
    as it was. *)
Lemma overlap_unitary_frame {C} (cabs : C -> C) (backend : Backend C)
    (self tnOther : TensorNetSimulationState C) (w : World C) z w' :
  (forall c, call_ok backend c = true) ->
  Forall (fun op => isUnitary op = true) (m_tensorOps (m_state tnOther)) ->
  overlap cabs backend self (TensorNet tnOther) w = (Ok z, w') ->
  dev w' = dev w.
Proof.
  intros Hok Huni Hrun.
  assert (Hready : Forall (dataReady (dev w)) (m_tensorOps (m_state tnOther))).
  { eapply list.Forall_impl; [exact Huni|]. intros op Hop Hno. congruence. }
  destruct (overlap_device_memory cabs backend self tnOther w z w' Hok Hready Hrun)
    as (-> & _).
  apply transposeAll_unitary. now apply Forall_rev.
Qed.

(** C2 on the code.  The plan asks for 4096 bytes and the pool has 1024:
    [overlap] throws, and the result scalar (address 4), the temporary
    network, the accessor and the workspace descriptor created by the call
    are all still there when it does. *)
Theorem overlap_leaks_on_insufficient_workspace :
  let w := Examples.world0 in
  let r := overlap Examples.cabs (Examples.backend 4096) Examples.bell
             (TensorNet Examples.bell) w in
  fst r = Throw (runtime_error InsufficientWorkspace)
  /\ (dev w !! 4%nat = None /\ dev (snd r) !! 4%nat = Some [(0, 0)])
  /\ (qstates w !! 1%nat = None /\ is_Some (qstates (snd r) !! 1%nat))
  /\ (accessors w !! 1%nat = None
      /\ accessors (snd r) !! 1%nat = Some (mkAccessor 1 [0; 1] (Some 8)))
  /\ (workspaces w !! 1%nat = None
      /\ workspaces (snd r) !! 1%nat = Some (mkWorkspace (Some 4096) None))
  /\ Forall (fun c => forall p, c <> CudaFree p) (log (snd r))
  /\ Forall (fun c => forall h, c <> CutnDestroyState h
                               /\ c <> CutnDestroyAccessor h
                               /\ c <> CutnDestroyWorkspaceDescriptor h)
            (log (snd r)).
Proof.
  cbn zeta.
  split; [vm_compute; reflexivity|].
  split; [split; vm_compute; reflexivity|].
  split; [split; [vm_compute; reflexivity|eexists; vm_compute; reflexivity]|].
  split; [split; vm_compute; reflexivity|].
  split; [split; vm_compute; reflexivity|].
  assert (Hlog : log (snd (overlap Examples.cabs (Examples.backend 4096)
                  Examples.bell (TensorNet Examples.bell) Examples.world0))
          = [CutnCreateState 2 [2; 2];
             CutnStateApplyTensorOperator 1 [0] 1 1 false true;
             CutnStateApplyControlledTensorOperator 1 [0] [1] 2 1 false true;
             CutnStateApplyControlledTensorOperator 1 [0] [1] 2 1 true true;
             CutnStateApplyTensorOperator 1 [0] 1 1 true true;
             CudaMalloc 1; CutnCreateAccessor 1 [0; 1];
             CutnAccessorConfigure 1 8; CutnCreateWorkspaceDescriptor;
             CutnAccessorPrepare 1 1024 1; CutnWorkspaceGetMemorySize 1])
    by (vm_compute; reflexivity).
  rewrite Hlog. split; repeat constructor; intros; discriminate.
Qed.

(** The same in general: whenever the plan needs more than the pool holds,
    [overlap] throws with its four temporaries alive. *)
Lemma overlap_insufficient_workspace {C} (cabs : C -> C) (backend : Backend C)
    (self tnOther : TensorNetSimulationState C) (w : World C) :
  let bra := m_tensorOps (m_state tnOther) in
  let nb := (getNumQubits self `max` getNumQubits tnOther)%nat in
  let d' := transposeAll (rev bra) (dev w) in
  let st := fresh_key (qstates w) in
  let acc := fresh_key (accessors w) in
  let wk := fresh_key (workspaces w) in
  let out := fresh_key d' in
  let Q := mkQState nb (replicate nb 2)
             (m_tensorOps (m_state self) ++ (flipAdjoint <$> rev bra)) in
  let A := mkAccessor st (seqZ 0 (Z.of_nat nb)) (Some 8) in
  let need := plan_worksize backend Q A (Z.of_N (scratchSize (scratchPad self))) in
  (forall c, call_ok backend c = true) ->
  Forall (dataReady (dev w)) bra ->
  int64_of_size (scratchSize (scratchPad self)) < need ->
  exists w',
    overlap cabs backend self (TensorNet tnOther) w
    = (Throw (runtime_error InsufficientWorkspace), w')
    /\ (d' !! out = None /\ dev w' !! out = Some [junk backend])
    /\ (qstates w !! st = None /\ qstates w' !! st = Some Q)
    /\ (accessors w !! acc = None /\ accessors w' !! acc = Some A)
    /\ (workspaces w !! wk = None
        /\ workspaces w' !! wk = Some (mkWorkspace (Some need) None)).
Proof.
  intros bra nb d' st acc wk out Q A need Hok Hready Hbig.
  destruct w as [d q a ws l]. cbn [dev qstates accessors workspaces log] in *.
  pose proof (overlap_run cabs backend Hok self tnOther d q a ws l Hready) as Hrun.
  cbn zeta in Hrun. unfold queryOps in Hrun.
  fold bra nb d' st acc wk out Q A need in Hrun.
  rewrite (proj2 (Z.leb_gt _ _) Hbig) in Hrun.
  eexists. split; [exact Hrun|]. cbn [dev qstates accessors workspaces].
  rewrite !lookup_insert_eq. repeat split; apply fresh_key_None.
Qed.

(** ** getAmplitude: the argument checks *)

(** A query that passes the three checks ends in a value, or in a failure of
    the library, of an assertion or of an access; never in one of the three
    exceptions thrown on the argument. *)
Lemma getAmplitude_valid_result {C} (thr : nat) (backend : Backend C)
    b (self : TensorNetSimulationState C) w e :
  length b = getNumQubits self -> allBits b -> b <> [] ->
  fst (getAmplitude thr backend b (self, w)) = Throw e ->
  ~ invalidArgument e.
Proof.
  intros Hlen Hbits Hne.
  unfold getAmplitude, bind, gets. cbn [fst].
  rewrite Hlen, Nat.eqb_refl. cbn [negb].
  rewrite (proj2 (existsb_notBit_false b) Hbits).
  destruct b as [|x b]; [done|]. cbn [vec_empty].
  unfold lift_snd, getStateVector, bind, api, get, ret, modify, assert, throw.
  cbn [fst snd].
  repeat case_match; simplify_eq; cbn [fst];
    intros [= <-] [(? & ? & ?)|[?|?]]; discriminate.
Qed.

(** C7.  [getAmplitude] throws one of its three argument exceptions exactly
    when the assignment has the wrong length, or holds a value other than 0
    and 1, or is empty; and when it does, the manager and the world are what
    they were: no call was made, nothing was cached. *)
Theorem getAmplitude_rejects_exactly {C} (thr : nat) (backend : Backend C)
    (b : list Z) (self : TensorNetSimulationState C) (w : World C) :
  let r := getAmplitude thr backend b (self, w) in
  ((exists e, fst r = Throw e /\ invalidArgument e)
   <-> (length b <> getNumQubits self \/ ~ allBits b \/ b = []))
  /\ ((exists e, fst r = Throw e /\ invalidArgument e) -> snd r = (self, w)).
Proof.
  cbn zeta.
  destruct (decide (length b = getNumQubits self)) as [Hlen|Hlen]; cycle 1.
  { rewrite getAmplitude_wrong_length by done. cbn [fst snd].
    split; [|done]. split; [tauto|]. intros _. eexists. split; [done|].
    left. eauto. }
  destruct (existsb notBit b) eqn:Hbits.
  { assert (Hnot : ~ allBits b).
    { intros Hall. apply existsb_notBit_false in Hall. congruence. }
    rewrite getAmplitude_not_bits by done. cbn [fst snd].
    split; [|done]. split; [tauto|]. intros _. eexists. split; [done|].
    right. left. reflexivity. }
  apply existsb_notBit_false in Hbits.
  destruct b as [|x b].
  { rewrite getAmplitude_empty by done. cbn [fst snd].
    split; [|done]. split; [tauto|]. intros _. eexists. split; [done|].
    right. right. reflexivity. }
  assert (Hvalid : ~ exists e,
             fst (getAmplitude thr backend (x :: b) (self, w)) = Throw e
             /\ invalidArgument e).
  { intros (e & He & Hinv).
    now apply (getAmplitude_valid_result thr backend (x :: b) self w e). }
  split; [|tauto]. split; [tauto|].
  intros [H|[H|H]]; [done|done|discriminate].
Qed.

(** C10.  On a manager of zero qubits the empty assignment passes the
    length check and the 0/1 check and is then rejected as empty; any other
    assignment fails the length check.  So no query returns a value. *)
Theorem getAmplitude_zero_qubits {C} (thr : nat) (backend : Backend C)
    (self : TensorNetSimulationState C) (w : World C) :
  getNumQubits self = 0%nat ->
  length ([] : list Z) = getNumQubits self
  /\ allBits []
  /\ getAmplitude thr backend [] (self, w)
     = (Throw (runtime_error EmptyBasisState), (self, w))
  /\ forall b, exists e, fst (getAmplitude thr backend b (self, w)) = Throw e.
Proof.
  intros Hzero. split; [now rewrite Hzero|]. split; [constructor|].
  split; [now apply getAmplitude_empty|].
  intros [|x b].
  - rewrite getAmplitude_empty by done. eauto.
  - rewrite getAmplitude_wrong_length by (rewrite Hzero; discriminate). eauto.
Qed.

Lemma getAmplitude_zero_qubits_witness :
  getAmplitude 30 (Examples.backend 64) [] (Examples.no_qubits, Examples.world0)
  = (Throw (runtime_error EmptyBasisState), (Examples.no_qubits, Examples.world0))
  /\ exists e, fst (getAmplitude 30 (Examples.backend 64) [0]
                      (Examples.no_qubits, Examples.world0)) = Throw e.
Proof.
  destruct (getAmplitude_zero_qubits 30 (Examples.backend 64)
              Examples.no_qubits Examples.world0) as (_ & _ & Hempty & Hall).
  - reflexivity.
  - split; [exact Hempty|apply Hall].
Defined.

(** ** getTensor *)

(** C9.  [getTensor i] throws [std::out_of_range] exactly when
    [i >= getNumTensors()]; below that it returns the tensor of record [i]:
    the record's own device pointer as data handle, and as extents the value
    2 repeated twice the number of target qubits. *)
Theorem getTensor_range {C} (getPrecision : precision)
    (self : TensorNetSimulationState C) (i : nat) :
  (getTensor getPrecision self i = Throw (out_of_range InvalidTensorIndex)
   <-> (getNumTensors self <= i)%nat)
  /\ getTensor getPrecision self i
     = match m_tensorOps (m_state self) !! i with
       | Some op =>
           Ok (mkTensor (deviceData op)
                        (replicate (2 * length (targetQubitIds op)) 2%nat)
                        getPrecision)
       | None => Throw (out_of_range InvalidTensorIndex)
       end
  /\ ((i < getNumTensors self)%nat ->
      exists op, m_tensorOps (m_state self) !! i = Some op
                 /\ getTensor getPrecision self i
                    = Ok (mkTensor (deviceData op)
                            (replicate (2 * length (targetQubitIds op)) 2%nat)
                            getPrecision)).
Proof.
  unfold getTensor, getNumTensors.
  destruct (Nat.leb_spec (length (m_tensorOps (m_state self))) i) as [Hge|Hlt].
  - rewrite (proj2 (lookup_ge_None _ _) Hge).
    split; [tauto|]. split; [reflexivity|]. lia.
  - destruct (lookup_lt_is_Some_2 _ _ Hlt) as [op Hop]. rewrite Hop.
    split; [|split; [reflexivity|eauto]].
    split; [discriminate|lia].
Qed.

Lemma getTensor_range_witness :
  getTensor fp64 Examples.bell 1
  = Ok (mkTensor 2 [2; 2]%nat fp64)
  /\ getTensor fp64 Examples.bell 2 = Throw (out_of_range InvalidTensorIndex).
Proof.
  destruct (getTensor_range fp64 Examples.bell 1) as (_ & H1 & _).
  destruct (getTensor_range fp64 Examples.bell 2) as (H2 & _ & _).
  split; [exact H1|]. apply H2. vm_compute. lia.
Defined.

(** ** getAmplitude: the two strategies *)

Lemma forM_cons_state {S A B} (f : A -> M S B) (x : A) (l : list A) (s : S) :
  snd (forM f (x :: l) s)
  = match f x s with
    | (Ok _, s') => snd (forM f l s')
    | (Throw _, s') => s'
    end.
Proof.
  cbn [forM]. unfold bind. destruct (f x s) as [[y|e] s']; [|reflexivity].
  destruct (forM f l s') as [[ys|e] s'']; reflexivity.
Qed.

Lemma fullContractions_app (l1 l2 : list Call) :
  fullContractions (l1 ++ l2) = (fullContractions l1 + fullContractions l2)%nat.
Proof. unfold fullContractions. now rewrite List.filter_app, length_app. Qed.

(** At or below the threshold, for any query and whatever the libraries
    answer: with a vector cached nothing is called and nothing changes; at
    most one full contraction is requested; a query that returns leaves a
    vector cached; the network is the same. *)
Lemma getAmplitude_small_any {C} (thr : nat) (backend : Backend C)
    b (self : TensorNetSimulationState C) w :
  (getNumQubits self <= thr)%nat ->
  (m_contractedStateVec self <> [] ->
   snd (getAmplitude thr backend b (self, w)) = (self, w))
  /\ (fullContractions (log (snd (snd (getAmplitude thr backend b (self, w)))))
      <= fullContractions (log w) + 1)%nat
  /\ (forall a, fst (getAmplitude thr backend b (self, w)) = Ok a ->
        m_contractedStateVec (fst (snd (getAmplitude thr backend b (self, w))))
        <> [])
  /\ getNumQubits (fst (snd (getAmplitude thr backend b (self, w))))
     = getNumQubits self.
Proof.
  intros Hthr.
  destruct (decide (length b = getNumQubits self)) as [Hlen|Hlen]; cycle 1.
  { rewrite getAmplitude_wrong_length by done. cbn [fst snd].
    repeat split; try done; lia. }
  destruct (existsb notBit b) eqn:Hbits.
  { assert (Hnot : ~ allBits b).
    { intros Hall. apply existsb_notBit_false in Hall. congruence. }
    rewrite getAmplitude_not_bits by done. cbn [fst snd].
    repeat split; try done; lia. }
  destruct b as [|x b].
  { rewrite getAmplitude_empty by done. cbn [fst snd].
    repeat split; try done; lia. }
  unfold getAmplitude, bind, gets. cbn [fst].
  rewrite Hlen, Nat.eqb_refl. cbn [negb]. rewrite Hbits. cbn [vec_empty].
  unfold getNumQubits in *. rewrite (proj2 (Nat.leb_le _ _) Hthr).
  unfold lift_snd, getStateVector, bind, api, get, modify, assert.
  unfold ret, throw.
  destruct w as [d q a ws l].
  destruct (m_contractedStateVec self) as [|c0 cache] eqn:Hcache;
    cbn [vec_empty fst snd];
    repeat match goal with
           | |- context [if ?c then _ else _] => destruct c eqn:?
           | |- context [match ?o with Some _ => _ | None => _ end] =>
               destruct o eqn:?
           end;
    cbn [fst snd dev with_log log setCache m_contractedStateVec m_state];
    rewrite ?fullContractions_app;
    (split; [intros Hne; first [reflexivity | now destruct Hne]|]);
    (split; [cbn; lia|]);
    (split; [|reflexivity]);
    try (intros; discriminate).
  - intros a' _ Hnil.
    match goal with H : _ !! _ = Some _ |- _ =>
      cbn [fst dev with_log setCache m_contractedStateVec] in H;
      rewrite Hnil in H; discriminate
    end.
  - intros a' _. rewrite Hcache. discriminate.
Qed.

(** Once a vector is cached, no series of queries calls the libraries or
    changes anything. *)
Lemma getAmplitude_cached_sequence {C} (thr : nat) (backend : Backend C)
    bs : forall (self : TensorNetSimulationState C) w,
  (getNumQubits self <= thr)%nat ->
  m_contractedStateVec self <> [] ->
  snd (forM (getAmplitude thr backend) bs (self, w)) = (self, w).
Proof.
  induction bs as [|b bs IH]; intros self w Hthr Hcache; [reflexivity|].
  rewrite forM_cons_state.
  destruct (getAmplitude_small_any thr backend b self w Hthr) as (Hsame & _).
  specialize (Hsame Hcache).
  destruct (getAmplitude thr backend b (self, w)) as [[a|e] st'];
    cbn [snd] in *; subst st'; [now apply IH|reflexivity].
Qed.

(** At or below the threshold no series of queries, valid or not, asks for
    more than one full contraction, whatever the libraries answer. *)
Lemma getAmplitude_small_sequence {C} (thr : nat) (backend : Backend C)
    bs (self : TensorNetSimulationState C) w :
  (getNumQubits self <= thr)%nat ->
  (fullContractions
     (log (snd (snd (forM (getAmplitude thr backend) bs (self, w)))))
   <= fullContractions (log w) + 1)%nat.
Proof.
  intros Hthr. revert self w Hthr.
  induction bs as [|b bs IH]; intros self w Hthr; [cbn; lia|].
  rewrite forM_cons_state.
  destruct (getAmplitude_small_any thr backend b self w Hthr)
    as (Hsame & Hcount & Hfilled & Hn).
  destruct (m_contractedStateVec self) as [|c0 cache] eqn:Hcache.
  - destruct (getAmplitude thr backend b (self, w)) as [[a|e] [self' w']];
      cbn [fst snd] in *; [|exact Hcount].
    rewrite getAmplitude_cached_sequence; [exact Hcount|lia|now apply (Hfilled a)].
  - assert (Hst : snd (getAmplitude thr backend b (self, w)) = (self, w))
      by (apply Hsame; discriminate).
    destruct (getAmplitude thr backend b (self, w)) as [[a|e] st'];
      cbn [snd] in *; subst st'; [|cbn; lia].
    rewrite getAmplitude_cached_sequence; [cbn; lia|done|].
    rewrite Hcache. discriminate.
Qed.

(** Above the threshold no query, valid or not, changes the manager or asks
    for the whole vector. *)
Lemma getAmplitude_large_step {C} (thr : nat) (backend : Backend C)
    b (self : TensorNetSimulationState C) w :
  (thr < getNumQubits self)%nat ->
  fst (snd (getAmplitude thr backend b (self, w))) = self
  /\ fullContractions (log (snd (snd (getAmplitude thr backend b (self, w)))))
     = fullContractions (log w).
Proof.
  intros Hthr.
  destruct (decide (length b = getNumQubits self)) as [Hlen|Hlen]; cycle 1.
  { now rewrite getAmplitude_wrong_length by done. }
  destruct (existsb notBit b) eqn:Hbits.
  { assert (Hnot : ~ allBits b).
    { intros Hall. apply existsb_notBit_false in Hall. congruence. }
    now rewrite getAmplitude_not_bits by done. }
  destruct b as [|x b].
  { now rewrite getAmplitude_empty by done. }
  unfold getAmplitude, bind, gets. cbn [fst].
  rewrite Hlen, Nat.eqb_refl. cbn [negb]. rewrite Hbits. cbn [vec_empty].
  unfold getNumQubits in Hthr. rewrite (proj2 (Nat.leb_gt _ _) Hthr).
  unfold lift_snd, getStateVector, bind, api, get, assert. unfold ret, throw.
  assert (Hpinned : forall net modes,
             isFullContraction (TnGetStateVector net modes (x :: b)) = false).
  { intros net [|m modes]; reflexivity. }
  destruct w as [d q a ws l].
  repeat case_match; simplify_eq; cbn [fst snd log with_log];
    (split; [reflexivity|]);
    rewrite ?fullContractions_app; unfold fullContractions at 2;
    cbn [List.filter]; rewrite ?Hpinned; cbn [length]; lia.
Qed.

Lemma getAmplitude_large_sequence {C} (thr : nat) (backend : Backend C)
    bs : forall (self : TensorNetSimulationState C) w,
  (thr < getNumQubits self)%nat ->
  fullContractions (log (snd (snd (forM (getAmplitude thr backend) bs (self, w)))))
  = fullContractions (log w).
Proof.
  induction bs as [|b bs IH]; intros self w Hthr; [reflexivity|].
  rewrite forM_cons_state.
  destruct (getAmplitude_large_step thr backend b self w Hthr) as [Hself Hcount].
  destruct (getAmplitude thr backend b (self, w)) as [[a|e] [self' w']];
    cbn [fst snd] in *; subst self'.
  - now rewrite IH.
  - exact Hcount.
Qed.

(** Above the threshold no series of queries changes the manager. *)
Lemma getAmplitude_large_manager {C} (thr : nat) (backend : Backend C)
    bs : forall (self : TensorNetSimulationState C) w,
  (thr < getNumQubits self)%nat ->
  fst (snd (forM (getAmplitude thr backend) bs (self, w))) = self.
Proof.
  induction bs as [|b bs IH]; intros self w Hthr; [reflexivity|].
  rewrite forM_cons_state.
  destruct (getAmplitude_large_step thr backend b self w Hthr) as [Hself _].
  destruct (getAmplitude thr backend b (self, w)) as [[a|e] [self' w']];
    cbn [fst snd] in *; subst self'; [now apply IH|reflexivity].
Qed.

(** Above the threshold a valid query makes exactly one request, the one
    with every qubit pinned, whatever the libraries answer. *)
Lemma getAmplitude_large_request {C} (thr : nat) (backend : Backend C)
    b (self : TensorNetSimulationState C) w :
  length b = getNumQubits self -> allBits b -> b <> [] ->
  (thr < getNumQubits self)%nat ->
  snd (getAmplitude thr backend b (self, w))
  = (self,
     with_log (fun l => l ++ [TnGetStateVector (m_state self)
                                (seqZ 0 (Z.of_nat (getNumQubits self))) b]) w).
Proof.
  intros Hlen Hbits Hne Hthr.
  unfold getAmplitude, bind, gets. cbn [fst].
  rewrite Hlen, Nat.eqb_refl. cbn [negb].
  rewrite (proj2 (existsb_notBit_false b) Hbits).
  destruct b as [|x b]; [done|]. cbn [vec_empty].
  unfold getNumQubits in *. rewrite (proj2 (Nat.leb_gt _ _) Hthr).
  unfold lift_snd, getStateVector, bind, api, get, assert. unfold ret, throw.
  repeat match goal with
         | |- context [if ?c then _ else _] => destruct c eqn:?
         | |- context [match ?o with Some _ => _ | None => _ end] =>
             destruct o eqn:?
         end; reflexivity.
Qed.

(** C5.  [getAmplitude] chooses by the qubit count.

    At or below the threshold: with nothing cached a valid query contracts
    the whole network once, keeps the vector and answers from it; with a
    vector cached a valid query answers from the cache; with a vector
    cached no query makes any call or changes anything, whatever the
    libraries would answer; and no series of queries, run up to its first
    exception, ever asks for more than one full contraction, whatever the
    libraries answer.

    Above the threshold, for a register of any size: a valid query makes
    exactly one request, the accessor query with every qubit pinned to the
    assignment, and leaves the manager as it is, whatever the libraries
    answer; it returns the one scalar of the answer when that request
    succeeds; and no series of queries, run up to its first exception, ever
    asks for a full contraction or changes the manager. *)
Theorem getAmplitude_strategy {C} (thr : nat) (backend : Backend C)
    (self : TensorNetSimulationState C) (w : World C) :
  let n := getNumQubits self in
  let net := m_state self in
  let cache := m_contractedStateVec self in
  let full := TnGetStateVector net [] [] in
  ((n <= thr)%nat ->
     (forall b, length b = n -> allBits b -> b <> [] -> (n < 64)%nat ->
        cache = [] ->
        call_ok backend full = true ->
        length (state_vector backend (dev w) net [] []) = (2 ^ n)%nat ->
        exists a w',
          state_vector backend (dev w) net [] [] !! Z.to_nat (basisIndex b)
          = Some a
          /\ getAmplitude thr backend b (self, w)
             = (Ok a, (setCache (state_vector backend (dev w) net [] []) self,
                       w'))
          /\ log w' = log w ++ [full])
     /\ (forall b, length b = n -> allBits b -> b <> [] -> (n < 64)%nat ->
           length cache = (2 ^ n)%nat ->
           exists a, cache !! Z.to_nat (basisIndex b) = Some a
             /\ getAmplitude thr backend b (self, w) = (Ok a, (self, w)))
     /\ (forall b, cache <> [] ->
           snd (getAmplitude thr backend b (self, w)) = (self, w))
     /\ (forall bs,
           (fullContractions
              (log (snd (snd (forM (getAmplitude thr backend) bs (self, w)))))
            <= fullContractions (log w) + 1)%nat))
  /\ ((thr < n)%nat ->
      (forall b, length b = n -> allBits b -> b <> [] ->
         let pinned := TnGetStateVector net (seqZ 0 (Z.of_nat n)) b in
         fst (snd (getAmplitude thr backend b (self, w))) = self
         /\ log (snd (snd (getAmplitude thr backend b (self, w))))
            = log w ++ [pinned]
         /\ isFullContraction pinned = false
         /\ (call_ok backend pinned = true ->
             forall a,
               state_vector backend (dev w) net (seqZ 0 (Z.of_nat n)) b = [a] ->
               fst (getAmplitude thr backend b (self, w)) = Ok a))
      /\ (forall bs,
            fullContractions
              (log (snd (snd (forM (getAmplitude thr backend) bs (self, w)))))
            = fullContractions (log w)
            /\ fst (snd (forM (getAmplitude thr backend) bs (self, w))) = self)).
Proof.
  intros n net cache full. split.
  - intros Hthr. split; [|split; [|split]].
    + intros b Hlen Hbits Hne H64 Hempty Hok Hsv.
      destruct (getAmplitude_small_first thr backend b self w)
        as (a & Ha & Hrun); try done.
      exists a. eexists. split; [exact Ha|]. split; [exact Hrun|].
      now destruct w.
    + intros b Hlen Hbits Hne H64 Hfull.
      now apply getAmplitude_small_cached.
    + intros b Hcache.
      now apply (getAmplitude_small_any thr backend b self w Hthr).
    + intros bs. now apply getAmplitude_small_sequence.
  - intros Hthr. split.
    + intros b Hlen Hbits Hne pinned.
      rewrite getAmplitude_large_request by done. cbn [fst snd].
      split; [reflexivity|]. split; [|split].
      * now destruct w.
      * subst pinned. destruct b as [|x b]; [done|].
        now destruct (seqZ 0 (Z.of_nat n)).
      * intros Hok a Ha.
        destruct (getAmplitude_large thr backend b self w) as (a' & Ha' & Hrun);
          try done.
        { fold n net. now rewrite Ha. }
        rewrite Hrun. cbn [fst]. fold n net in Ha'. congruence.
    + intros bs. split.
      * now apply getAmplitude_large_sequence.
      * now apply getAmplitude_large_manager.
Qed.

Lemma getAmplitude_strategy_witness :
  (* threshold 30, two qubits: contracted once, then served from the cache *)
  ((exists w',
      getAmplitude 30 (Examples.backend 64) [1; 0]
        (Examples.bell, Examples.world0)
      = (Ok (1, 0),
         (setCache [(0, 0); (1, 0); (2, 0); (3, 0)] Examples.bell, w'))
      /\ log w' = [TnGetStateVector (m_state Examples.bell) [] []])
   /\ (fullContractions
         (log (snd (snd (forM (getAmplitude 30 (Examples.backend 64))
                           [[0; 0]; [1; 0]; [0; 1]; [1; 1]]%Z
                           (Examples.bell, Examples.world0)))))
       <= 1)%nat)
  (* threshold 1, two qubits: one pinned query, nothing cached *)
  /\ (fst (getAmplitude 1 (Examples.backend 64) [1; 0]
             (Examples.bell, Examples.world0)) = Ok (1, 0)
      /\ fst (snd (getAmplitude 1 (Examples.backend 64) [1; 0]
                     (Examples.bell, Examples.world0))) = Examples.bell
      /\ log (snd (snd (getAmplitude 1 (Examples.backend 64) [1; 0]
                          (Examples.bell, Examples.world0))))
         = [TnGetStateVector (m_state Examples.bell) [0; 1] [1; 0]])
  (* threshold 30, seventy qubits: one pinned query, nothing cached *)
  /\ (fst (getAmplitude 30 (Examples.backend 64) (replicate 70 0)
             (MoreExamples.wide, Examples.world0)) = Ok (0, 0)
      /\ fst (snd (getAmplitude 30 (Examples.backend 64) (replicate 70 0)
                     (MoreExamples.wide, Examples.world0))) = MoreExamples.wide
      /\ log (snd (snd (getAmplitude 30 (Examples.backend 64) (replicate 70 0)
                          (MoreExamples.wide, Examples.world0))))
         = [TnGetStateVector (m_state MoreExamples.wide)
              (seqZ 0 70) (replicate 70 0)]).
Proof.
  split; [|split].
  - destruct (getAmplitude_strategy 30 (Examples.backend 64) Examples.bell
                Examples.world0) as [Hsmall _].
    destruct Hsmall as (Hfirst & _ & _ & Hseq); [vm_compute; lia|].
    split; [|apply Hseq].
    destruct (Hfirst [1; 0]) as (a & w' & Ha & Hrun & Hlog).
    + reflexivity.
    + repeat (constructor; [lia|]). constructor.
    + discriminate.
    + vm_compute. lia.
    + reflexivity.
    + reflexivity.
    + reflexivity.
    + exists w'. vm_compute in Ha. injection Ha as <-.
      split; [exact Hrun|exact Hlog].
  - destruct (getAmplitude_strategy 1 (Examples.backend 64) Examples.bell
                Examples.world0) as [_ Hlarge].
    destruct Hlarge as (Hquery & _); [vm_compute; lia|].
    destruct (Hquery [1; 0]) as (Hself & Hlog & _ & Hvalue).
    + reflexivity.
    + repeat (constructor; [lia|]). constructor.
    + discriminate.
    + split; [exact (Hvalue eq_refl (1, 0) eq_refl)|].
      split; [exact Hself|exact Hlog].
  - destruct (getAmplitude_strategy 30 (Examples.backend 64) MoreExamples.wide
                Examples.world0) as [_ Hlarge].
    destruct Hlarge as (Hquery & _); [vm_compute; lia|].
    destruct (Hquery (replicate 70 0)) as (Hself & Hlog & _ & Hvalue).
    + reflexivity.
    + apply Forall_replicate. now left.
    + discriminate.
    + split; [exact (Hvalue eq_refl (0, 0) ltac:(vm_compute; reflexivity))|].
      split; [exact Hself|exact Hlog].
Defined.

(** C6.  Below the threshold the index into the cached vector, folded from
    the last qubit to the first, is the little-endian value of the
    assignment (qubit 0 the least significant bit), and the amplitude
    returned is the entry of the cached vector at that index. *)
Theorem getAmplitude_index {C} (thr : nat) (backend : Backend C)
    (self : TensorNetSimulationState C) (w : World C) (b : list Z) :
  let n := getNumQubits self in
  let sv := state_vector backend (dev w) (m_state self) [] [] in
  let cache := m_contractedStateVec self in
  length b = n -> allBits b -> b <> [] ->
  (n <= thr)%nat -> (n < 64)%nat ->
  call_ok backend (TnGetStateVector (m_state self) [] []) = true ->
  length sv = (2 ^ n)%nat ->
  cache = [] \/ length cache = (2 ^ n)%nat ->
  basisIndex b = fold_left accBit (rev b) 0
  /\ basisIndex b = littleEndian b
  /\ exists a self' w',
       getAmplitude thr backend b (self, w) = (Ok a, (self', w'))
       /\ m_contractedStateVec self' !! Z.to_nat (littleEndian b) = Some a.
Proof.
  intros n sv cache Hlen Hbits Hne Hthr H64 Hok Hsv Hcache.
  split; [reflexivity|].
  assert (Hidx : basisIndex b = littleEndian b).
  { apply basisIndex_littleEndian; [done|]. fold n in Hlen. lia. }
  split; [exact Hidx|]. rewrite <- Hidx.
  destruct Hcache as [Hempty|Hfull].
  - destruct (getAmplitude_small_first thr backend b self w) as (a & Ha & Hrun);
      try done.
    exists a. eexists _, _. split; [exact Hrun|]. exact Ha.
  - destruct (getAmplitude_small_cached thr backend b self w) as (a & Ha & Hrun);
      try done.
    exists a. eexists _, _. split; [exact Hrun|]. exact Ha.
Qed.

Lemma getAmplitude_index_witness :
  basisIndex [1; 0] = 1 /\ basisIndex [0; 1] = 2
  /\ exists self' w',
       getAmplitude 30 (Examples.backend 64) [0; 1]
                    (Examples.bell, Examples.world0) = (Ok (2, 0), (self', w'))
       /\ m_contractedStateVec self' !! 2%nat = Some (2, 0).
Proof.
  split; [reflexivity|]. split; [reflexivity|].
  destruct (getAmplitude_index 30 (Examples.backend 64) Examples.bell
              Examples.world0 [0; 1]) as (_ & _ & a & self' & w' & Hrun & Ha).
  - reflexivity.
  - repeat (constructor; [lia|]). constructor.
  - discriminate.
  - vm_compute. lia.
  - vm_compute. lia.
  - reflexivity.
  - reflexivity.
  - left. reflexivity.
  - exists self', w'. rewrite Hrun in *.
    assert (Hval : fst (getAmplitude 30 (Examples.backend 64) [0; 1]
                          (Examples.bell, Examples.world0)) = Ok (2, 0))
      by (vm_compute; reflexivity).
    rewrite Hrun in Hval. cbn [fst] in Hval. injection Hval as ->.
    split; [reflexivity|exact Ha].
Defined.

(** ** toHost *)

(** The copy loop overwrites the caller's buffer with the state vector. *)
Lemma copyLoop_run {C} (sv : list C) (w : World C) : forall k i buf,
  (i + k = length sv)%nat -> length buf = length sv ->
  copyLoop sv i k buf w = (Ok (take i buf ++ drop i sv), w).
Proof.
  induction k as [|k IH]; intros i buf Hik Hbuf; cbn [copyLoop].
  { unfold ret. rewrite drop_ge, app_nil_r, take_ge by lia. reflexivity. }
  destruct (lookup_lt_is_Some_2 sv i) as [x Hx]; [lia|]. rewrite Hx.
  unfold bind, storeAt.
  rewrite (proj2 (Nat.ltb_lt _ _)) by lia. unfold ret.
  rewrite IH by (rewrite ?length_insert; lia).
  rewrite (take_S_r _ _ x) by (apply list_lookup_insert_eq; lia).
  rewrite take_insert_ge by lia.
  rewrite <- app_assoc. cbn [app]. now rewrite (drop_S _ _ _ Hx).
Qed.

(** C8.  [toHost] contracts the network anew on every call (one
    [getStateVector] call is logged), throws the dimension mismatch exactly
    when [numElements] is not [2^numQubits], and otherwise leaves the state
    vector in the caller's buffer.  The cache plays no part: the call yields
    the same for any cached vector, and being a const method it has no
    manager to give back. *)
Theorem toHost_dimension {C} (backend : Backend C)
    (self : TensorNetSimulationState C) (buf : list C) (numElements : nat)
    (w : World C) :
  let net := m_state self in
  let sv := state_vector backend (dev w) net [] [] in
  let w1 := with_log (fun l => l ++ [TnGetStateVector net [] []]) w in
  call_ok backend (TnGetStateVector net [] []) = true ->
  length sv = (2 ^ getNumQubits self)%nat ->
  length buf = numElements ->
  ((exists k1 k2, fst (toHost backend self buf numElements w)
                  = Throw (runtime_error (DimensionMismatch k1 k2)))
   <-> numElements <> (2 ^ getNumQubits self)%nat)
  /\ (numElements <> (2 ^ getNumQubits self)%nat ->
      toHost backend self buf numElements w
      = (Throw (runtime_error
                  (DimensionMismatch (2 ^ getNumQubits self) numElements)), w1))
  /\ (numElements = (2 ^ getNumQubits self)%nat ->
      toHost backend self buf numElements w = (Ok sv, w1)
      /\ length sv = numElements)
  /\ (forall cache,
        toHost backend (setCache cache self) buf numElements w
        = toHost backend self buf numElements w).
Proof.
  intros net sv w1 Hok Hsv Hbuf.
  assert (Hrun : toHost backend self buf numElements w
                 = if negb (length sv =? numElements)%nat
                   then (Throw (runtime_error
                                  (DimensionMismatch (length sv) numElements)), w1)
                   else copyLoop sv 0 numElements buf w1).
  { unfold toHost, getStateVector, bind, api, get, ret. fold net. rewrite Hok.
    cbn [dev with_log]. fold sv. now destruct (negb _). }
  assert (Hbad : numElements <> (2 ^ getNumQubits self)%nat ->
                 toHost backend self buf numElements w
                 = (Throw (runtime_error
                      (DimensionMismatch (2 ^ getNumQubits self) numElements)), w1)).
  { intros Hne. rewrite Hrun, Hsv.
    destruct (Nat.eqb_spec (2 ^ getNumQubits self) numElements); [congruence|].
    reflexivity. }
  assert (Hgood : numElements = (2 ^ getNumQubits self)%nat ->
                  toHost backend self buf numElements w = (Ok sv, w1)).
  { intros Heq. rewrite Hrun, Hsv, <- Heq, Nat.eqb_refl. cbn [negb].
    rewrite copyLoop_run by lia. reflexivity. }
  split; [|split; [exact Hbad|split]].
  - split.
    + intros (k1 & k2 & Hthrow) Heq. rewrite (Hgood Heq) in Hthrow. discriminate.
    + intros Hne. rewrite (Hbad Hne). eauto.
  - intros Heq. split; [now apply Hgood|lia].
  - intros cache. reflexivity.
Qed.

Lemma toHost_dimension_witness :
  toHost (Examples.backend 64) Examples.bell (replicate 4 (0, 0)) 4 Examples.world0
  = (Ok [(0, 0); (1, 0); (2, 0); (3, 0)],
     with_log (fun l => l ++ [TnGetStateVector (m_state Examples.bell) [] []])
              Examples.world0)
  /\ fst (toHost (Examples.backend 64) Examples.bell (replicate 3 (0, 0)) 3
            Examples.world0)
     = Throw (runtime_error (DimensionMismatch 4 3)).
Proof.
  split.
  - destruct (toHost_dimension (Examples.backend 64) Examples.bell
                (replicate 4 (0, 0)) 4 Examples.world0) as (_ & _ & Hgood & _);
      [reflexivity..|].
    destruct Hgood as [Hrun _]; [reflexivity|]. exact Hrun.
  - destruct (toHost_dimension (Examples.backend 64) Examples.bell
                (replicate 3 (0, 0)) 3 Examples.world0) as (_ & Hbad & _);
      [reflexivity..|].
    rewrite Hbad by (vm_compute; lia). reflexivity.
Defined.

(** ** getTensors *)

Lemma fold_left_emplaceTensor gp (ops : list AppliedTensorOp) : forall acc,
  fold_left (emplaceTensor gp) ops acc
  = acc ++ ((fun op => mkTensor (deviceData op)
                         (replicate (2 * length (targetQubitIds op)) 2%nat) gp)
              <$> ops).
Proof.
  induction ops as [|op ops IH]; intros acc; cbn [fold_left fmap list_fmap].
  { now rewrite app_nil_r. }
  rewrite IH. unfold emplaceTensor. now rewrite <- app_assoc.
Qed.

(** X1.  [getTensors] and [getTensor] export the same thing: the list has
    [getNumTensors()] entries, and its entry [i] is what [getTensor(i)]
    returns; past the end the one has no entry and the other throws. *)
Theorem getTensors_agrees_with_getTensor {C} (gp : precision)
    (self : TensorNetSimulationState C) :
  length (getTensors gp self) = getNumTensors self
  /\ (forall i t, getTensors gp self !! i = Some t <-> getTensor gp self i = Ok t)
  /\ (forall i, getTensors gp self !! i = None
                <-> getTensor gp self i = Throw (out_of_range InvalidTensorIndex)).
Proof.
  unfold getTensors. rewrite fold_left_emplaceTensor. cbn [app].
  split; [unfold getNumTensors; now rewrite length_fmap|].
  split.
  - intros i t. rewrite list_lookup_fmap. unfold getTensor, getNumTensors.
    destruct (Nat.leb_spec (length (m_tensorOps (m_state self))) i) as [Hge|Hlt].
    + rewrite (proj2 (lookup_ge_None _ _) Hge). cbn. split; discriminate.
    + destruct (lookup_lt_is_Some_2 _ _ Hlt) as [op Hop]. rewrite Hop. cbn.
      split; intros [= <-]; reflexivity.
  - intros i. rewrite list_lookup_fmap. unfold getTensor, getNumTensors.
    destruct (Nat.leb_spec (length (m_tensorOps (m_state self))) i) as [Hge|Hlt].
    + rewrite (proj2 (lookup_ge_None _ _) Hge). cbn. tauto.
    + destruct (lookup_lt_is_Some_2 _ _ Hlt) as [op Hop]. rewrite Hop. cbn.
      split; discriminate.
Qed.

Lemma volume_replicate_2 (k : nat) : volume (replicate k 2%nat) = (2 ^ k)%nat.
Proof.
  unfold volume. induction k as [|k IH]; [reflexivity|].
  cbn [replicate fold_right]. rewrite IH, Nat.pow_succ_r'. reflexivity.
Qed.

(** X2.  The tensor exported for an operator carries the operator's own
    device pointer, and its extents describe exactly as many entries as
    [overlap] copies and transposes for that operator
    ([2^k * 2^k] for [k] target qubits). *)
Theorem getTensors_shape {C} (gp : precision)
    (self : TensorNetSimulationState C) (i : nat) (op : AppliedTensorOp) :
  m_tensorOps (m_state self) !! i = Some op ->
  exists t, getTensors gp self !! i = Some t
    /\ data t = deviceData op
    /\ fp_precision t = gp
    /\ Forall (fun e => e = 2%nat) (extents t)
    /\ volume (extents t) = matSize op.
Proof.
  intros Hop. unfold getTensors. rewrite fold_left_emplaceTensor. cbn [app].
  rewrite list_lookup_fmap, Hop. cbn [fmap option_fmap option_map].
  eexists. split; [reflexivity|]. cbn [data extents fp_precision].
  split; [reflexivity|]. split; [reflexivity|]. split.
  - apply list.Forall_forall. intros e He. now apply elem_of_replicate in He.
  - rewrite volume_replicate_2. unfold matSize.
    replace (2 * length (targetQubitIds op))%nat
      with (length (targetQubitIds op) + length (targetQubitIds op))%nat by lia.
    now rewrite Nat.pow_add_r.
Qed.

Lemma getTensors_shape_witness :
  exists t, getTensors fp64 Examples.bell !! 1%nat = Some t
    /\ data t = 2%nat /\ volume (extents t) = 4%nat.
Proof.
  destruct (getTensors_shape fp64 Examples.bell 1 Examples.cx01)
    as (t & Ht & Hdata & _ & _ & Hvol).
  - reflexivity.
  - exists t. split; [exact Ht|]. split; [exact Hdata|exact Hvol].
Defined.

(** ** dump and destroyState *)

Lemma printState_app {C} (v : list C) : forall os : list (Output C),
  printState os v = os ++ flat_map (fun t => [OutAmplitude t; OutNewline]) v.
Proof.
  unfold printState. induction v as [|t v IH]; intros os; cbn [fold_left flat_map].
  { now rewrite app_nil_r. }
  rewrite IH, <- app_assoc. reflexivity.
Qed.

Lemma amplitudesOf_app {C} (os1 os2 : list (Output C)) :
  amplitudesOf (os1 ++ os2) = amplitudesOf os1 ++ amplitudesOf os2.
Proof. unfold amplitudesOf. apply omap_app. Qed.

Lemma amplitudesOf_printState {C} (os : list (Output C)) (v : list C) :
  amplitudesOf (printState os v) = amplitudesOf os ++ v.
Proof.
  rewrite printState_app, amplitudesOf_app. f_equal.
  induction v as [|t v IH]; [reflexivity|]. cbn. now rewrite <- IH at 2.
Qed.

(** [dump] with a cached vector: the stream afterwards, the world as it was. *)
Lemma dump_cached_run {C} (backend : Backend C)
    (self : TensorNetSimulationState C) (os : list (Output C)) (w : World C) :
  m_contractedStateVec self <> [] ->
  exists os',
    dump backend self os w = (Ok os', w)
    /\ amplitudesOf os' = amplitudesOf os ++ m_contractedStateVec self
    /\ length os' = (length os + 2 * length (m_contractedStateVec self))%nat.
Proof.
  intros Hne. unfold dump, dumpShell, shellOf. cbn [sh_contractedStateVec].
  destruct (m_contractedStateVec self) as [|c0 cache] eqn:Hc; [done|].
  cbn [vec_empty negb]. unfold ret. eexists. split; [reflexivity|].
  split; [apply amplitudesOf_printState|].
  rewrite printState_app, length_app. f_equal.
  generalize (c0 :: cache). intros v.
  induction v as [|t v IH]; cbn [flat_map length app] in *; lia.
Qed.

(** X3.  With a cached vector [dump] writes that vector, one amplitude per
    line after what the stream already held, and asks the libraries for
    nothing, whatever they would answer; the world is as before. *)
Theorem dump_serves_cache {C} (backend : Backend C)
    (self : TensorNetSimulationState C) (os : list (Output C)) (w : World C) :
  m_contractedStateVec self <> [] ->
  exists os',
    dump backend self os w = (Ok os', w)
    /\ amplitudesOf os' = amplitudesOf os ++ m_contractedStateVec self
    /\ length os' = (length os + 2 * length (m_contractedStateVec self))%nat.
Proof. apply dump_cached_run. Qed.

Lemma dump_serves_cache_witness :
  exists os',
    dump MoreExamples.failing_backend MoreExamples.bell_cached [] Examples.world0
    = (Ok os', Examples.world0)
    /\ amplitudesOf os' = [(7, 0); (0, 0); (0, 0); (7, 0)].
Proof.
  destruct (dump_serves_cache MoreExamples.failing_backend
              MoreExamples.bell_cached [] Examples.world0)
    as (os' & Hrun & Hamp & _).
  - discriminate.
  - exists os'. split; [exact Hrun|exact Hamp].
Defined.

Lemma dump_uncached_run {C} (backend : Backend C)
    (self : TensorNetSimulationState C) (os : list (Output C)) (w : World C) :
  m_contractedStateVec self = [] ->
  call_ok backend (TnGetStateVector (m_state self) [] []) = true ->
  dump backend self os w
  = (Ok (printState os (state_vector backend (dev w) (m_state self) [] [])),
     with_log (fun l => l ++ [TnGetStateVector (m_state self) [] []]) w).
Proof.
  intros Hempty Hok. unfold dump, dumpShell, shellOf.
  cbn [sh_contractedStateVec sh_state]. rewrite Hempty. cbn [vec_empty negb].
  unfold deref, getStateVector, bind, api, get, ret. rewrite Hok. reflexivity.
Qed.

(** X4.  [dump] never fills the cache: on a manager with nothing cached,
    every one of a series of dumps contracts the whole network again, and
    each writes the vector the libraries return. *)
Theorem dump_never_caches {C} (backend : Backend C)
    (self : TensorNetSimulationState C) (oss : list (list (Output C)))
    (w : World C) :
  let call := TnGetStateVector (m_state self) [] [] in
  let sv := state_vector backend (dev w) (m_state self) [] [] in
  m_contractedStateVec self = [] ->
  call_ok backend call = true ->
  forM (dump backend self) oss w
  = (Ok ((fun os => printState os sv) <$> oss),
     with_log (fun l => l ++ replicate (length oss) call) w)
  /\ fullContractions (log (snd (forM (dump backend self) oss w)))
     = (fullContractions (log w) + length oss)%nat.
Proof.
  intros call sv Hempty Hok.
  assert (Hrun : forall oss w0, dev w0 = dev w ->
             forM (dump backend self) oss w0
             = (Ok ((fun os => printState os sv) <$> oss),
                with_log (fun l => l ++ replicate (length oss) call) w0)).
  { clear oss. induction oss as [|os oss IH]; intros w0 Hdev.
    { cbn. unfold ret, with_log. rewrite app_nil_r. now destruct w0. }
    cbn [forM].
    erewrite bind_Ok by (now apply dump_uncached_run).
    erewrite bind_Ok by (apply IH; destruct w0; exact Hdev).
    unfold ret. rewrite Hdev. fold sv call.
    destruct w0. unfold with_log.
    cbn [dev qstates accessors workspaces log length replicate fmap list_fmap].
    rewrite <- app_assoc. reflexivity. }
  split; [now apply Hrun|].
  rewrite Hrun by reflexivity. destruct w as [d q a ws l]. cbn [snd with_log log].
  rewrite fullContractions_app. f_equal.
  clear. induction (length oss) as [|n IH]; [reflexivity|].
  cbn [replicate]. unfold fullContractions in *. cbn [List.filter isFullContraction].
  subst call. cbn [isFullContraction length]. now rewrite IH.
Qed.

Lemma dump_never_caches_witness :
  fullContractions
    (log (snd (forM (dump (Examples.backend 64) Examples.bell) [[]; []; []]
                 Examples.world0))) = 3%nat.
Proof.
  destruct (dump_never_caches (Examples.backend 64) Examples.bell [[]; []; []]
              Examples.world0) as [_ Hcount]; [reflexivity..|].
  exact Hcount.
Defined.

(** X5.  After [destroyState] the object still dumps a vector it had
    cached, exactly as before and without any call; with nothing cached the
    dump goes through the released pointer, again without any call. *)
Theorem dump_after_destroyState {C} (backend : Backend C)
    (self : Shell C) (os : list (Output C)) (w : World C) :
  sh_state (destroyState self) = None
  /\ sh_contractedStateVec (destroyState self) = sh_contractedStateVec self
  /\ (sh_contractedStateVec self <> [] ->
      dumpShell backend (destroyState self) os w
      = (Ok (printState os (sh_contractedStateVec self)), w))
  /\ (sh_contractedStateVec self = [] ->
      dumpShell backend (destroyState self) os w = (Throw memory_fault, w)).
Proof.
  split; [reflexivity|]. split; [reflexivity|].
  unfold dumpShell, destroyState. cbn [sh_contractedStateVec sh_state].
  destruct (sh_contractedStateVec self) as [|c0 cache]; split; intros H;
    try done; reflexivity.
Qed.

Lemma dump_after_destroyState_witness :
  dumpShell (Examples.backend 64)
            (destroyState (shellOf MoreExamples.bell_cached)) [] Examples.world0
  = (Ok [OutAmplitude (7, 0); OutNewline; OutAmplitude (0, 0); OutNewline;
         OutAmplitude (0, 0); OutNewline; OutAmplitude (7, 0); OutNewline],
     Examples.world0)
  /\ dumpShell (Examples.backend 64)
               (destroyState (shellOf Examples.bell)) [] Examples.world0
     = (Throw memory_fault, Examples.world0).
Proof.
  split.
  - destruct (dump_after_destroyState (Examples.backend 64)
                (shellOf MoreExamples.bell_cached) [] Examples.world0)
      as (_ & _ & Hcached & _).
    apply Hcached. discriminate.
  - destruct (dump_after_destroyState (Examples.backend 64)
                (shellOf Examples.bell) [] Examples.world0)
      as (_ & _ & _ & Hempty).
    apply Hempty. reflexivity.
Defined.

(** ** createFromSizeAndPtr *)

(** X6.  [createFromSizeAndPtr] refuses data tagged as tensor (MPS) data,
    and nothing else, with that error, before it reads the buffer or builds
    anything: the world is untouched.  Otherwise it hands the first [size]
    entries of the buffer to the network builder and wraps the network in a
    manager that has the pool of [self] and no cached vector, whatever
    [self] has cached. *)
Theorem createFromSizeAndPtr_outcomes {C} (tensorIndex : nat)
    (factory : list C -> ScratchDeviceMem -> M (World C) TensorNetState)
    (self : TensorNetSimulationState C) (size : nat) (ptr : list C)
    (dataType : nat) (w : World C) :
  let r := createFromSizeAndPtr tensorIndex factory self size ptr dataType w in
  (fst r = Ok CannotCreateFromMps <-> dataType = tensorIndex)
  /\ (dataType = tensorIndex -> snd r = w)
  /\ (dataType <> tensorIndex -> (size <= length ptr)%nat ->
      forall net w', factory (take size ptr) (scratchPad self) w = (Ok net, w') ->
        r = (Ok (Created (mkSim net [] (scratchPad self))), w'))
  /\ (dataType <> tensorIndex -> (size <= length ptr)%nat ->
      forall e w', factory (take size ptr) (scratchPad self) w = (Throw e, w') ->
        r = (Throw e, w')).
Proof.
  cbn zeta. unfold createFromSizeAndPtr, vectorFromRange.
  destruct (Nat.eqb_spec dataType tensorIndex) as [Heq|Hne].
  { split; [tauto|]. split; [reflexivity|]. split; intros; congruence. }
  split.
  { split; [|done]. unfold bind, ret, throw.
    repeat case_match; cbn [fst]; simplify_eq; discriminate. }
  split; [done|].
  split; intros _ Hsize; rewrite (proj2 (Nat.leb_le _ _) Hsize);
    intros x w' Hf; unfold bind, ret; now rewrite Hf.
Qed.

Lemma createFromSizeAndPtr_outcomes_witness :
  createFromSizeAndPtr 3 MoreExamples.factory MoreExamples.bell_cached
    4 [(1, 0); (0, 0); (0, 0); (1, 0); (9, 9)] 0 Examples.world0
  = (Ok (Created
           (mkSim (mkNet 2 [mkOp 4 [0; 1] [] false false]) [] Examples.pool)),
     mkWorld (<[4%nat := [(1, 0); (0, 0); (0, 0); (1, 0)]]> Examples.dev0)
             ∅ ∅ ∅ [CudaMalloc 4; CudaMemcpyHostToDevice 4 4])
  /\ createFromSizeAndPtr 3 MoreExamples.factory MoreExamples.bell_cached
       4 [(1, 0); (0, 0); (0, 0); (1, 0); (9, 9)] 3 Examples.world0
     = (Ok CannotCreateFromMps, Examples.world0).
Proof.
  split.
  - destruct (createFromSizeAndPtr_outcomes 3 MoreExamples.factory
                MoreExamples.bell_cached 4
                [(1, 0); (0, 0); (0, 0); (1, 0); (9, 9)] 0 Examples.world0)
      as (_ & _ & Hok & _).
    apply Hok; [discriminate|vm_compute; lia|].
    vm_compute. reflexivity.
  - vm_compute. reflexivity.
Defined.

(** X7.  A manager made by [createFromSizeAndPtr] starts without a cached
    vector: its first small-system amplitude query contracts the new
    network once, answers from that vector and keeps it. *)
Theorem created_manager_contracts_anew {C} (thr tensorIndex : nat)
    (backend : Backend C)
    (factory : list C -> ScratchDeviceMem -> M (World C) TensorNetState)
    (self : TensorNetSimulationState C) (size : nat) (ptr : list C)
    (dataType : nat) (w w' : World C) (net : TensorNetState) (b : list Z) :
  let sv := state_vector backend (dev w') net [] [] in
  dataType <> tensorIndex -> (size <= length ptr)%nat ->
  factory (take size ptr) (scratchPad self) w = (Ok net, w') ->
  length b = tn_numQubits net -> allBits b -> b <> [] ->
  (tn_numQubits net <= thr)%nat -> (tn_numQubits net < 64)%nat ->
  call_ok backend (TnGetStateVector net [] []) = true ->
  length sv = (2 ^ tn_numQubits net)%nat ->
  exists created a,
    createFromSizeAndPtr tensorIndex factory self size ptr dataType w
    = (Ok (Created created), w')
    /\ m_contractedStateVec created = []
    /\ scratchPad created = scratchPad self
    /\ sv !! Z.to_nat (littleEndian b) = Some a
    /\ getAmplitude thr backend b (created, w')
       = (Ok a, (setCache sv created,
                 with_log (fun l => l ++ [TnGetStateVector net [] []]) w')).
Proof.
  intros sv Hne Hsize Hf Hlen Hbits Hb Hthr H64 Hok Hsv.
  exists (mkSim net [] (scratchPad self)).
  destruct (getAmplitude_small_first thr backend b
              (mkSim net [] (scratchPad self)) w') as (a & Ha & Hrun);
    try done.
  exists a. split.
  { unfold createFromSizeAndPtr, vectorFromRange.
    rewrite (proj2 (Nat.eqb_neq _ _) Hne), (proj2 (Nat.leb_le _ _) Hsize).
    unfold bind, ret. now rewrite Hf. }
  split; [reflexivity|]. split; [reflexivity|].
  split; [|exact Hrun].
  rewrite <- basisIndex_littleEndian by (done || lia). exact Ha.
Qed.

Lemma created_manager_contracts_anew_witness :
  exists created a,
    createFromSizeAndPtr 3 MoreExamples.factory MoreExamples.bell_cached
      4 [(1, 0); (0, 0); (0, 0); (1, 0)] 0 Examples.world0
    = (Ok (Created created),
       mkWorld (<[4%nat := [(1, 0); (0, 0); (0, 0); (1, 0)]]> Examples.dev0)
               ∅ ∅ ∅ [CudaMalloc 4; CudaMemcpyHostToDevice 4 4])
    /\ m_contractedStateVec created = []
    /\ fst (getAmplitude 30 (Examples.backend 64) [1; 1]
              (created,
               mkWorld (<[4%nat := [(1, 0); (0, 0); (0, 0); (1, 0)]]> Examples.dev0)
                       ∅ ∅ ∅ [CudaMalloc 4; CudaMemcpyHostToDevice 4 4]))
       = Ok a.
Proof.
  destruct (created_manager_contracts_anew 30 3 (Examples.backend 64)
              MoreExamples.factory MoreExamples.bell_cached 4
              [(1, 0); (0, 0); (0, 0); (1, 0)] 0 Examples.world0
              (mkWorld (<[4%nat := [(1, 0); (0, 0); (0, 0); (1, 0)]]> Examples.dev0)
                       ∅ ∅ ∅ [CudaMalloc 4; CudaMemcpyHostToDevice 4 4])
              (mkNet 2 [mkOp 4 [0; 1] [] false false]) [1; 1])
    as (created & a & Hcreate & Hcache & _ & _ & Hrun).
  - discriminate.
  - vm_compute. lia.
  - vm_compute. reflexivity.
  - reflexivity.
  - repeat (constructor; [lia|]). constructor.
  - discriminate.
  - vm_compute. lia.
  - vm_compute. lia.
  - reflexivity.
  - reflexivity.
  - exists created, a. split; [exact Hcreate|]. split; [exact Hcache|].
    now rewrite Hrun.
Defined.

(** ** How the queries compose *)

(** X8.  After a small-system amplitude query has answered, [dump] writes
    the cached vector the answer was read from (the answer is its entry at
    the little-endian index of the assignment) and makes no call of its own,
    whatever the libraries would now return. *)
Theorem getAmplitude_then_dump {C} (thr : nat) (backend backend' : Backend C)
    (self : TensorNetSimulationState C) (w : World C) (b : list Z)
    (os : list (Output C)) :
  let n := getNumQubits self in
  let sv := state_vector backend (dev w) (m_state self) [] [] in
  let cache := m_contractedStateVec self in
  length b = n -> allBits b -> b <> [] ->
  (n <= thr)%nat -> (n < 64)%nat ->
  call_ok backend (TnGetStateVector (m_state self) [] []) = true ->
  length sv = (2 ^ n)%nat ->
  cache = [] \/ length cache = (2 ^ n)%nat ->
  exists a self' w' os',
    getAmplitude thr backend b (self, w) = (Ok a, (self', w'))
    /\ dump backend' self' os w' = (Ok os', w')
    /\ amplitudesOf os' = amplitudesOf os ++ m_contractedStateVec self'
    /\ m_contractedStateVec self' !! Z.to_nat (littleEndian b) = Some a.
Proof.
  intros n sv cache Hlen Hbits Hne Hthr H64 Hok Hsv Hcache.
  assert (Hidx : basisIndex b = littleEndian b).
  { apply basisIndex_littleEndian; [done|]. fold n in Hlen. lia. }
  assert (Hpos : forall v : list C, length v = (2 ^ n)%nat -> v <> []).
  { intros v Hv ->. cbn in Hv. pose proof (Nat.pow_nonzero 2 n). lia. }
  destruct Hcache as [Hempty|Hfull].
  - destruct (getAmplitude_small_first thr backend b self w) as (a & Ha & Hrun);
      try done.
    destruct (dump_cached_run backend' (setCache sv self) os
                (with_log (fun l => l ++ [TnGetStateVector (m_state self) [] []]) w))
      as (os' & Hdump & Hamp & _); [now apply Hpos|].
    exists a. eexists _, _, os'. split; [exact Hrun|]. split; [exact Hdump|].
    split; [exact Hamp|]. rewrite <- Hidx. exact Ha.
  - destruct (getAmplitude_small_cached thr backend b self w) as (a & Ha & Hrun);
      try done.
    destruct (dump_cached_run backend' self os w)
      as (os' & Hdump & Hamp & _); [now apply Hpos|].
    exists a. eexists _, _, os'. split; [exact Hrun|]. split; [exact Hdump|].
    split; [exact Hamp|]. rewrite <- Hidx. exact Ha.
Qed.

Lemma getAmplitude_then_dump_witness :
  exists a self' w' os',
    getAmplitude 30 (Examples.backend 64) [0; 1] (Examples.bell, Examples.world0)
    = (Ok a, (self', w'))
    /\ dump MoreExamples.failing_backend self' [] w' = (Ok os', w')
    /\ amplitudesOf os' = [] ++ m_contractedStateVec self'
    /\ m_contractedStateVec self' !! 2%nat = Some a.
Proof.
  apply (getAmplitude_then_dump 30 (Examples.backend 64)
           MoreExamples.failing_backend Examples.bell Examples.world0 [0; 1] []).
  - reflexivity.
  - repeat (constructor; [lia|]). constructor.
  - discriminate.
  - vm_compute. lia.
  - vm_compute. lia.
  - reflexivity.
  - reflexivity.
  - left. reflexivity.
Defined.


(** ** Assignments and indices *)

Lemma bitsOf_length (n : nat) : forall k, length (bitsOf n k) = n.
Proof. induction n as [|n IH]; intros k; cbn; [reflexivity|now rewrite IH]. Qed.

Lemma bitsOf_allBits (n : nat) : forall k, allBits (bitsOf n k).
Proof.
  unfold allBits. induction n as [|n IH]; intros k; cbn; constructor; [|apply IH].
  pose proof (Z.mod_pos_bound k 2). lia.
Qed.

Lemma littleEndian_bitsOf (n : nat) : forall k,
  0 <= k < 2 ^ Z.of_nat n -> littleEndian (bitsOf n k) = k.
Proof.
  induction n as [|n IH]; intros k Hk.
  { cbn in *. unfold littleEndian. cbn. lia. }
  cbn [bitsOf]. rewrite littleEndian_cons, IH.
  - pose proof (Z.div_mod k 2). lia.
  - rewrite Nat2Z.inj_succ, Z.pow_succ_r in Hk by lia.
    split; [apply Z.div_pos; lia|apply Z.div_lt_upper_bound; lia].
Qed.

Lemma littleEndian_inj (b1 : list Z) : forall b2,
  allBits b1 -> allBits b2 -> length b1 = length b2 ->
  littleEndian b1 = littleEndian b2 -> b1 = b2.
Proof.
  unfold allBits. induction b1 as [|x b1 IH]; intros [|y b2] H1 H2 Hlen Heq;
    try discriminate; [reflexivity|].
  apply list.Forall_cons in H1 as [Hx H1]. apply list.Forall_cons in H2 as [Hy H2].
  rewrite !littleEndian_cons in Heq.
  assert (x = y) as -> by lia.
  f_equal. apply IH; try done; [cbn in Hlen; lia|lia].
Qed.

(** X10.  For registers of at most 64 qubits the index fold of
    [getAmplitude] is a one-to-one correspondence between the valid
    assignments of [n] bits and the indices [0 .. 2^n - 1]: the index is in
    range, different assignments get different indices, and every index is
    the index of the assignment made of its [n] low bits. *)
Theorem basisIndex_bijection (n : nat) :
  (n <= 64)%nat ->
  (forall b, length b = n -> allBits b -> 0 <= basisIndex b < 2 ^ Z.of_nat n)
  /\ (forall b1 b2, length b1 = n -> length b2 = n -> allBits b1 -> allBits b2 ->
        basisIndex b1 = basisIndex b2 -> b1 = b2)
  /\ (forall k, 0 <= k < 2 ^ Z.of_nat n ->
        length (bitsOf n k) = n /\ allBits (bitsOf n k)
        /\ basisIndex (bitsOf n k) = k).
Proof.
  intros Hn. split; [|split].
  - intros b Hlen Hb. rewrite basisIndex_littleEndian by (done || lia).
    rewrite <- Hlen. now apply littleEndian_bound.
  - intros b1 b2 H1 H2 Hb1 Hb2 Heq.
    rewrite !basisIndex_littleEndian in Heq by (done || lia).
    apply littleEndian_inj; try done. congruence.
  - intros k Hk. split; [apply bitsOf_length|]. split; [apply bitsOf_allBits|].
    rewrite basisIndex_littleEndian.
    + now apply littleEndian_bitsOf.
    + apply bitsOf_allBits.
    + rewrite bitsOf_length. exact Hn.
Qed.

Lemma basisIndex_bijection_witness :
  basisIndex (bitsOf 3 6) = 6 /\ bitsOf 3 6 = [0; 1; 1].
Proof.
  destruct (basisIndex_bijection 3) as (_ & _ & Hk); [lia|].
  destruct (Hk 6) as (_ & _ & Hidx); [lia|].
  split; [exact Hidx|reflexivity].
Defined.

(** X11.  Round trip through the small-system path: on a manager with
    nothing cached, asking for the amplitude of the assignment made of the
    [n] low bits of [k] returns entry [k] of the state vector the libraries
    contract, for every [k] below [2^n]. *)
Theorem getAmplitude_reads_entry {C} (thr : nat) (backend : Backend C)
    (self : TensorNetSimulationState C) (w : World C) (k : Z) :
  let n := getNumQubits self in
  let sv := state_vector backend (dev w) (m_state self) [] [] in
  (0 < n)%nat -> (n <= thr)%nat -> (n < 64)%nat ->
  0 <= k < 2 ^ Z.of_nat n ->
  call_ok backend (TnGetStateVector (m_state self) [] []) = true ->
  length sv = (2 ^ n)%nat ->
  m_contractedStateVec self = [] ->
  exists a, sv !! Z.to_nat k = Some a
    /\ fst (getAmplitude thr backend (bitsOf n k) (self, w)) = Ok a.
Proof.
  intros n sv Hpos Hthr H64 Hk Hok Hsv Hempty.
  destruct (getAmplitude_small_first thr backend (bitsOf n k) self w)
    as (a & Ha & Hrun); try done.
  - apply bitsOf_length.
  - apply bitsOf_allBits.
  - destruct n; [lia|discriminate].
  - exists a. rewrite Hrun. split; [|reflexivity].
    rewrite basisIndex_littleEndian, littleEndian_bitsOf in Ha; try done.
    + apply bitsOf_allBits.
    + rewrite bitsOf_length. lia.
Qed.

Lemma getAmplitude_reads_entry_witness :
  exists a, Examples.iota_vector (m_state Examples.bell) [] [] !! 2%nat = Some a
    /\ fst (getAmplitude 30 (Examples.backend 64) [0; 1]
              (Examples.bell, Examples.world0)) = Ok a.
Proof.
  apply (getAmplitude_reads_entry 30 (Examples.backend 64) Examples.bell
           Examples.world0 2).
  - vm_compute. lia.
  - vm_compute. lia.
  - vm_compute. lia.
  - vm_compute. split; [discriminate|reflexivity].
  - reflexivity.
  - reflexivity.
  - reflexivity.
Defined.

(** ** overlap under arbitrary library answers *)

Section Outcomes.
Context {S : Type}.

Lemma outcome_ret {A} (Q : A -> Prop) P (a : A) :
  Q a -> outcome (S := S) Q P (ret a).
Proof. intros H s. exact H. Qed.

Lemma outcome_throw {A} (Q : A -> Prop) (P : exn -> Prop) e :
  P e -> outcome (S := S) Q P (throw e).
Proof. intros H s. exact H. Qed.

Lemma outcome_bind {A B} (Q1 : A -> Prop) (Q : B -> Prop) P
    (m : M S A) (k : A -> M S B) :
  outcome Q1 P m -> (forall a, Q1 a -> outcome Q P (k a)) ->
  outcome Q P (bind m k).
Proof.
  intros Hm Hk s. specialize (Hm s). unfold bind.
  destruct (m s) as [[a|e] s1]; cbn [fst] in *; [apply Hk, Hm|exact Hm].
Qed.

Lemma outcome_forM {A B} P (f : A -> M S B) (l : list A) :
  (forall x, outcome (fun _ => True) P (f x)) ->
  outcome (fun _ => True) P (forM f l).
Proof.
  intros Hf. induction l as [|x l IH]; cbn [forM]; [now apply outcome_ret|].
  eapply outcome_bind; [apply Hf|]. intros y _.
  eapply outcome_bind; [apply IH|]. intros ys _. now apply outcome_ret.
Qed.

Lemma outcome_forM_ {A} P (f : A -> M S unit) (l : list A) :
  (forall x, outcome (fun _ => True) P (f x)) ->
  outcome (fun _ => True) P (forM_ f l).
Proof.
  intros Hf. induction l as [|x l IH]; cbn [forM_]; [now apply outcome_ret|].
  eapply outcome_bind; [apply Hf|]. intros _ _. exact IH.
Qed.

Lemma refines_refl {A} (m : M S A) : refines m m.
Proof. intros s a s' H _. exact H. Qed.

Lemma refines_bind {A B} (m1 m2 : M S A) (k1 k2 : A -> M S B) :
  refines m1 m2 -> (forall a, refines (k1 a) (k2 a)) ->
  refines (bind m1 k1) (bind m2 k2).
Proof.
  intros Hm Hk s r s'. unfold bind.
  destruct (m1 s) as [[a|e] s1] eqn:E1.
  - rewrite (Hm _ _ _ E1) by discriminate. apply Hk.
  - intros [= <- <-] Hr. rewrite (Hm _ _ _ E1); [reflexivity|].
    intros c [= ->]. now apply (Hr c).
Qed.

Lemma refines_forM {A B} (f g : A -> M S B) (l : list A) :
  (forall x, refines (f x) (g x)) -> refines (forM f l) (forM g l).
Proof.
  intros Hf. induction l as [|x l IH]; cbn [forM]; [apply refines_refl|].
  apply refines_bind; [apply Hf|]. intros y.
  apply refines_bind; [apply IH|]. intros ys. apply refines_refl.
Qed.

Lemma refines_forM_ {A} (f g : A -> M S unit) (l : list A) :
  (forall x, refines (f x) (g x)) -> refines (forM_ f l) (forM_ g l).
Proof.
  intros Hf. induction l as [|x l IH]; cbn [forM_]; [apply refines_refl|].
  apply refines_bind; [apply Hf|]. intros _. exact IH.
Qed.

End Outcomes.

Section AnyBackend.
Context {C : Type}.
Variable cabs : C -> C.
Variable backend : Backend C.

(** A library call either succeeds or is thrown as the error of that
    call; a value is never read through an unknown handle. *)
Ltac call_outcome :=
  intros s;
  unfold bind, api, get, put, modify, known, ret, throw;
  repeat match goal with
         | |- context [if ?b then _ else _] => destruct b eqn:?
         | |- context [match ?o with Some _ => _ | None => _ end] =>
             destruct o eqn:?
         end;
  cbn [fst];
  first [exact I | left; eauto | idtac].

Lemma cudaMalloc_outcome n :
  outcome (fun _ => True) overlapFailure (cudaMalloc backend n).
Proof. unfold cudaMalloc. call_outcome. Qed.

Lemma cudaMemcpyDeviceToHost_outcome src n :
  outcome (fun l : list C => length l = n) overlapFailure
          (cudaMemcpyDeviceToHost backend src n).
Proof.
  unfold cudaMemcpyDeviceToHost. call_outcome.
  match goal with H : (_ <=? _)%nat = true |- _ => apply Nat.leb_le in H end.
  rewrite length_take. lia.
Qed.

Lemma cudaMemcpyHostToDevice_outcome dst (l : list C) :
  outcome (fun _ => True) overlapFailure (cudaMemcpyHostToDevice backend dst l).
Proof. unfold cudaMemcpyHostToDevice. call_outcome. Qed.

Lemma cudaFree_outcome p :
  outcome (fun _ => True) overlapFailure (cudaFree backend p).
Proof. unfold cudaFree. call_outcome. Qed.

Lemma cutensornetCreateState_outcome nq dims :
  outcome (fun _ => True) overlapFailure (cutensornetCreateState backend nq dims).
Proof. unfold cutensornetCreateState. call_outcome. Qed.

Lemma applyOp_outcome st op :
  outcome (fun _ => True) overlapFailure (applyOp backend st op).
Proof.
  unfold applyOp. destruct (controlQubitIds op);
    [unfold cutensornetStateApplyTensorOperator
    |unfold cutensornetStateApplyControlledTensorOperator]; call_outcome.
Qed.

Lemma cutensornetCreateAccessor_outcome st modes :
  outcome (fun _ => True) overlapFailure
          (cutensornetCreateAccessor backend st modes).
Proof. unfold cutensornetCreateAccessor. call_outcome. Qed.

Lemma cutensornetAccessorConfigure_outcome acc n :
  outcome (fun _ => True) overlapFailure
          (cutensornetAccessorConfigure backend acc n).
Proof. unfold cutensornetAccessorConfigure. call_outcome. Qed.

Lemma cutensornetCreateWorkspaceDescriptor_outcome :
  outcome (fun _ => True) overlapFailure
          (cutensornetCreateWorkspaceDescriptor backend).
Proof. unfold cutensornetCreateWorkspaceDescriptor. call_outcome. Qed.

Lemma cutensornetAccessorPrepare_outcome acc budget wk :
  outcome (fun _ => True) overlapFailure
          (cutensornetAccessorPrepare backend acc budget wk).
Proof. unfold cutensornetAccessorPrepare. call_outcome. Qed.

Lemma cutensornetWorkspaceGetMemorySize_outcome wk :
  outcome (fun _ => True) overlapFailure
          (cutensornetWorkspaceGetMemorySize backend wk).
Proof. unfold cutensornetWorkspaceGetMemorySize. call_outcome. Qed.

Lemma cutensornetWorkspaceSetMemory_outcome wk buf size :
  outcome (fun _ => True) overlapFailure
          (cutensornetWorkspaceSetMemory backend wk buf size).
Proof. unfold cutensornetWorkspaceSetMemory. call_outcome. Qed.

Lemma cutensornetAccessorCompute_outcome acc values wk out :
  outcome (fun _ => True) overlapFailure
          (cutensornetAccessorCompute backend acc values wk out).
Proof. unfold cutensornetAccessorCompute. call_outcome. Qed.

Lemma cutensornetDestroyWorkspaceDescriptor_outcome wk :
  outcome (fun _ => True) overlapFailure
          (cutensornetDestroyWorkspaceDescriptor backend wk).
Proof. unfold cutensornetDestroyWorkspaceDescriptor. call_outcome. Qed.

Lemma cutensornetDestroyAccessor_outcome acc :
  outcome (fun _ => True) overlapFailure (cutensornetDestroyAccessor backend acc).
Proof. unfold cutensornetDestroyAccessor. call_outcome. Qed.

Lemma cutensornetDestroyState_outcome st :
  outcome (fun _ => True) overlapFailure (cutensornetDestroyState backend st).
Proof. unfold cutensornetDestroyState. call_outcome. Qed.

Lemma conjugateOp_outcome op :
  outcome (fun _ => True) overlapFailure (conjugateOp backend op).
Proof.
  unfold conjugateOp. cbn zeta. destruct (negb _); [|now apply outcome_ret].
  eapply outcome_bind; [apply cudaMemcpyDeviceToHost_outcome|]. intros mat _.
  eapply outcome_bind; [apply cudaMemcpyHostToDevice_outcome|]. intros _ _.
  now apply outcome_ret.
Qed.

(** Against a state of its own kind [overlap] ends in a value, in the
    error of a library call, or in the workspace error. *)
Lemma overlap_outcome self tnOther :
  outcome (fun _ => True) overlapFailure
          (overlap cabs backend self (TensorNet tnOther)).
Proof.
  unfold overlap. cbn zeta.
  eapply outcome_bind; [apply outcome_forM, conjugateOp_outcome|]. intros ops _.
  eapply outcome_bind; [apply cutensornetCreateState_outcome|]. intros st _.
  eapply outcome_bind; [apply outcome_forM_, applyOp_outcome|]. intros _ _.
  eapply outcome_bind; [apply cudaMalloc_outcome|]. intros out _.
  eapply outcome_bind; [apply cutensornetCreateAccessor_outcome|]. intros acc _.
  eapply outcome_bind; [apply cutensornetAccessorConfigure_outcome|]. intros _ _.
  eapply outcome_bind; [apply cutensornetCreateWorkspaceDescriptor_outcome|].
  intros wk _.
  eapply outcome_bind; [apply cutensornetAccessorPrepare_outcome|]. intros _ _.
  eapply outcome_bind; [apply cutensornetWorkspaceGetMemorySize_outcome|].
  intros worksize _.
  eapply outcome_bind with (Q1 := fun _ => True).
  { destruct (worksize <=? _).
    - apply cutensornetWorkspaceSetMemory_outcome.
    - apply outcome_throw. now right. }
  intros _ _.
  eapply outcome_bind; [apply cutensornetAccessorCompute_outcome|]. intros _ _.
  eapply outcome_bind; [apply cudaMemcpyDeviceToHost_outcome|]. intros h Hh.
  eapply outcome_bind; [apply cudaFree_outcome|]. intros _ _.
  eapply outcome_bind; [apply cutensornetDestroyWorkspaceDescriptor_outcome|].
  intros _ _.
  eapply outcome_bind; [apply cutensornetDestroyAccessor_outcome|]. intros _ _.
  eapply outcome_bind; [apply cutensornetDestroyState_outcome|]. intros _ _.
  destruct h as [|z h]; [discriminate|]. now apply outcome_ret.
Qed.

End AnyBackend.

(** X12.  The ways [overlap] can fail, whatever the libraries answer: the
    unsupported-type error exactly when the other state is of another
    representation (and then nothing at all was done), and otherwise only
    the error of a library call or the insufficient-workspace error. *)
Theorem overlap_failure_modes {C} (cabs : C -> C) (backend : Backend C)
    (self : TensorNetSimulationState C) (other : SimulationState C)
    (w : World C) :
  let r := overlap cabs backend self other w in
  (fst r = Throw (runtime_error OverlapOtherType)
   <-> exists nq, other = OtherRepresentation nq)
  /\ ((exists nq, other = OtherRepresentation nq) -> snd r = w)
  /\ (forall e, fst r = Throw e ->
        e = runtime_error OverlapOtherType \/ overlapFailure e).
Proof.
  cbn zeta. destruct other as [tnOther|nq].
  - pose proof (overlap_outcome cabs backend self tnOther w) as Hout.
    destruct (fst (overlap cabs backend self (TensorNet tnOther) w)) as [z|e].
    + split; [split; [discriminate|intros [? ?]; discriminate]|].
      split; [intros [? ?]; discriminate|discriminate].
    + split; [split|split].
      * intros [= ->]. destruct Hout as [[c Hc]|Hc]; discriminate.
      * intros [? ?]; discriminate.
      * intros [? ?]; discriminate.
      * intros e' [= <-]. now right.
  - cbn. split; [split; eauto|]. split; [reflexivity|].
    intros e [= <-]. now left.
Qed.

(** C3, amended.  [overlap] has no test on the qubit counts.  When either
    state has zero qubits it never ends in an argument error, whatever the
    libraries answer: it can only fail with the error of a library call or
    with the insufficient-workspace error.  And when the library calls
    succeed, the matrices of the non-unitary operators are on the device
    and the planned workspace is at most the pool size as line 137 reads
    it, it returns the magnitude of the amplitude, having added to the log
    exactly the calls of any other run: among them the creation of the
    temporary network over the larger of the two qubit counts and the
    accessor computation at the all-zero assignment. *)
Theorem overlap_zero_qubits_runs {C} (cabs : C -> C) (backend : Backend C)
    (self tnOther : TensorNetSimulationState C) (w : World C) :
  let ket := m_tensorOps (m_state self) in
  let bra := m_tensorOps (m_state tnOther) in
  let pool := scratchPad self in
  let nb := (getNumQubits self `max` getNumQubits tnOther)%nat in
  let st := fresh_key (qstates w) in
  let acc := fresh_key (accessors w) in
  let wk := fresh_key (workspaces w) in
  let out := fresh_key (transposeAll (rev bra) (dev w)) in
  let Q := mkQState nb (replicate nb 2) (ket ++ (negatedAdjoint <$> rev bra)) in
  let A := mkAccessor st (seqZ 0 (Z.of_nat nb)) (Some 8) in
  let need := plan_worksize backend Q A (Z.of_N (scratchSize pool)) in
  getNumQubits self = 0%nat \/ getNumQubits tnOther = 0%nat ->
  (forall e, fst (overlap cabs backend self (TensorNet tnOther) w) = Throw e ->
     overlapFailure e)
  /\ ((forall c, call_ok backend c = true) ->
      Forall (dataReady (dev w)) bra ->
      Forall shiftDefined bra ->
      need <= int64_of_size (scratchSize pool) ->
      exists w',
        overlap cabs backend self (TensorNet tnOther) w
        = (Ok (cabs (amplitude backend
                       (<[out := [junk backend]]>
                          (transposeAll (rev bra) (dev w)))
                       Q A (replicate nb 0))), w')
        /\ log w' = log w
             ++ flat_map conjCalls (rev bra)
             ++ [CutnCreateState nb (replicate nb 2)]
             ++ (applyCall st <$> (ket ++ (negatedAdjoint <$> rev bra)))
             ++ prepareCalls st acc wk nb pool
             ++ [CutnWorkspaceSetMemory wk (d_scratch pool) need;
                 CutnAccessorCompute acc (replicate nb 0) wk out;
                 CudaMemcpyDeviceToHost out 1;
                 CudaFree out;
                 CutnDestroyWorkspaceDescriptor wk;
                 CutnDestroyAccessor acc;
                 CutnDestroyState st]).
Proof.
  intros ket bra pool nb st acc wk out Q A need _. split.
  - intros e He.
    pose proof (overlap_outcome cabs backend self tnOther w) as Hout.
    now rewrite He in Hout.
  - intros Hok Hready _ Hfit.
    subst need A Q. rewrite <- flipAdjoint_negatedAdjoint in *.
    now apply overlap_success.
Qed.

Lemma overlap_zero_qubits_runs_witness :
  exists w',
    overlap Examples.cabs (Examples.backend 64) Examples.no_qubits
            (TensorNet MoreExamples.mixed_bra) Examples.world0
    = (Ok (5, 0), w')
    /\ log w'
       = [CudaMemcpyDeviceToHost 3 4; CudaMemcpyHostToDevice 3 4;
          CutnCreateState 2 [2; 2];
          CutnStateApplyTensorOperator 1 [0] 3 1 true false;
          CutnStateApplyControlledTensorOperator 1 [0] [1] 2 1 true true;
          CutnStateApplyTensorOperator 1 [0] 1 1 false true;
          CudaMalloc 1; CutnCreateAccessor 1 [0; 1];
          CutnAccessorConfigure 1 8; CutnCreateWorkspaceDescriptor;
          CutnAccessorPrepare 1 1024 1; CutnWorkspaceGetMemorySize 1;
          CutnWorkspaceSetMemory 1 0 64; CutnAccessorCompute 1 [0; 0] 1 4;
          CudaMemcpyDeviceToHost 4 1; CudaFree 4;
          CutnDestroyWorkspaceDescriptor 1; CutnDestroyAccessor 1;
          CutnDestroyState 1].
Proof.
  destruct (overlap_zero_qubits_runs Examples.cabs (Examples.backend 64)
              Examples.no_qubits MoreExamples.mixed_bra Examples.world0)
    as [_ Hruns].
  - left. reflexivity.
  - destruct Hruns as (w' & Hrun & Hlog).
    + intros c. reflexivity.
    + repeat constructor; intros Hu; try discriminate.
      eexists. split; [reflexivity|]. vm_compute. lia.
    + repeat (constructor; [intros Hu; try discriminate; vm_compute; lia|]).
    constructor.
    + vm_compute. discriminate.
    + exists w'. split; [exact Hrun|]. rewrite Hlog. vm_compute. reflexivity.
Defined.

(** ** What a returning overlap has done *)

Section Refinement.
Context {C : Type}.
Variable cabs : C -> C.
Variable backend : Backend C.

Lemma refines_api c : refines (api backend c) (api (succeeding backend) c).
Proof.
  intros s r s'. unfold api. cbn [call_ok succeeding].
  destruct (call_ok backend c); [tauto|].
  intros [= <- <-] Hr. now destruct (Hr c).
Qed.

Ltac refine_calls :=
  repeat first
    [ apply refines_api
    | apply refines_refl
    | apply refines_bind; [|intros ?]
    | apply refines_forM; intros ?
    | apply refines_forM_; intros ?
    | progress cbn zeta
    | match goal with
      | |- refines (if ?b then _ else _) _ => destruct b
      | |- refines (match ?o with [] => _ | _ :: _ => _ end) _ => destruct o
      end ].

Lemma conjugateOp_refines op :
  refines (conjugateOp backend op) (conjugateOp (succeeding backend) op).
Proof.
  unfold conjugateOp, cudaMemcpyDeviceToHost, cudaMemcpyHostToDevice.
  refine_calls.
Qed.

Lemma applyOp_refines st op :
  refines (applyOp backend st op) (applyOp (succeeding backend) st op).
Proof.
  unfold applyOp, cutensornetStateApplyTensorOperator,
    cutensornetStateApplyControlledTensorOperator.
  refine_calls.
Qed.

Lemma overlap_refines self other :
  refines (overlap cabs backend self other)
          (overlap cabs (succeeding backend) self other).
Proof.
  unfold overlap. destruct other as [tnOther|nq]; [|apply refines_refl].
  cbn zeta.
  apply refines_bind; [apply refines_forM, conjugateOp_refines|]. intros ops.
  unfold cutensornetCreateState, cudaMalloc, cutensornetCreateAccessor,
    cutensornetAccessorConfigure, cutensornetCreateWorkspaceDescriptor,
    cutensornetAccessorPrepare, cutensornetWorkspaceGetMemorySize,
    cutensornetWorkspaceSetMemory, cutensornetAccessorCompute,
    cudaMemcpyDeviceToHost, cudaFree, cutensornetDestroyWorkspaceDescriptor,
    cutensornetDestroyAccessor, cutensornetDestroyState.
  repeat first [apply applyOp_refines | progress refine_calls].
Qed.

End Refinement.

Lemma transposeAt_length_inv {C} (op : AppliedTensorOp) (d : gmap nat (list C)) p l' :
  transposeAt op d !! p = Some l' ->
  exists l, d !! p = Some l /\ length l = length l'.
Proof.
  unfold transposeAt.
  destruct (isUnitary op); [eauto|].
  destruct (d !! deviceData op) as [m|] eqn:Hm; [|eauto].
  destruct (matSize op <=? length m)%nat eqn:Hle; [|eauto].
  apply Nat.leb_le in Hle.
  destruct (decide (deviceData op = p)) as [Heq|Hne].
  - rewrite Heq in *. rewrite lookup_insert_eq. intros [= <-].
    exists m. split; [done|].
    rewrite length_app, length_drop, length_transposeInPlace.
    + unfold matSize in *. lia.
    + rewrite length_take. unfold matSize in *. lia.
  - rewrite lookup_insert_ne by done. eauto.
Qed.

Lemma dataReady_transposeAt_inv {C} (op op' : AppliedTensorOp)
    (d : gmap nat (list C)) :
  dataReady (transposeAt op' d) op -> dataReady d op.
Proof.
  intros Hr Hu. destruct (Hr Hu) as (l' & Hl' & Hlen).
  destruct (transposeAt_length_inv op' d _ _ Hl') as (l & Hl & Hlen').
  exists l. split; [done|lia].
Qed.

Lemma succeeding_ok {C} (backend : Backend C) c :
  call_ok (succeeding backend) c = true.
Proof. reflexivity. Qed.

Lemma conjugateOp_Ok_ready {C} (backend : Backend C) op (w : World C) r w1 :
  conjugateOp backend op w = (Ok r, w1) ->
  dataReady (dev w) op /\ dev w1 = transposeAt op (dev w).
Proof.
  intros Hrun.
  assert (Hready : dataReady (dev w) op).
  { intros Hu. revert Hrun. unfold conjugateOp.
    cbn [flipAdjoint isUnitary deviceData targetQubitIds]. rewrite Hu.
    cbn [negb]. fold (matSize op).
    unfold cudaMemcpyDeviceToHost, bind, api, get, known, ret, throw.
    destruct (call_ok backend _); [|discriminate].
    cbn [dev with_log].
    destruct (dev w !! deviceData op) as [m|]; [|discriminate].
    destruct (matSize op <=? length m)%nat eqn:Hle; [|discriminate].
    intros _. exists m. split; [done|]. now apply Nat.leb_le. }
  split; [exact Hready|].
  apply (conjugateOp_refines backend op w (Ok r) w1) in Hrun; [|discriminate].
  destruct w as [d q a ws l].
  rewrite (conjugateOp_run (succeeding backend) (succeeding_ok backend)
             op d q a ws l Hready) in Hrun.
  now injection Hrun as _ <-.
Qed.

Lemma forM_conjugateOp_Ok_ready {C} (backend : Backend C) ops :
  forall (w : World C) r w1,
  forM (conjugateOp backend) ops w = (Ok r, w1) ->
  Forall (dataReady (dev w)) ops.
Proof.
  induction ops as [|op ops IH]; intros w r w1 Hrun; [constructor|].
  cbn [forM] in Hrun. unfold bind at 1 in Hrun.
  destruct (conjugateOp backend op w) as [[op'|e] w0] eqn:E; [|discriminate].
  destruct (conjugateOp_Ok_ready backend op w op' w0 E) as [Hop Hdev].
  unfold bind in Hrun.
  destruct (forM (conjugateOp backend) ops w0) as [[r'|e] w2] eqn:E2;
    [|discriminate].
  constructor; [exact Hop|].
  eapply list.Forall_impl; [exact (IH _ _ _ E2)|].
  intros x Hx. rewrite Hdev in Hx. now apply dataReady_transposeAt_inv in Hx.
Qed.


(** Below [2^63] the cast changes nothing. *)
Lemma int64_of_size_small (n : N) :
  Z.of_N n < 2 ^ 63 -> int64_of_size n = Z.of_N n.
Proof.
  intros Hn. unfold int64_of_size. rewrite Z.mod_small by lia. lia.
Qed.



(** ** Transposing twice *)

Section TransposeTwice.
Context {C : Type}.





End TransposeTwice.

Section TransposeAllTwice.
Context {C : Type}.







End TransposeAllTwice.



(** ** The workspace error, whatever the libraries answer *)

Lemma conjugateOp_only_api {C} (backend : Backend C) op :
  outcome (fun _ => True) (fun e => exists c, e = api_error c)
          (conjugateOp backend op).
Proof.
  intros s. unfold conjugateOp, cudaMemcpyDeviceToHost, cudaMemcpyHostToDevice,
    bind, api, get, put, known, ret, throw. cbn zeta.
  repeat match goal with
         | |- context [if ?b then _ else _] => destruct b eqn:?
         | |- context [match ?o with Some _ => _ | None => _ end] =>
             destruct o eqn:?
         end;
  cbn [fst]; first [exact I | eauto].
Qed.

(** X15.  Whatever the libraries answer: if [overlap] throws the
    insufficient-workspace error, then every call before the size test had
    succeeded, the plan asked for more than the pool size as line 137 reads
    it (the [std::size_t] cast to [int64_t]; for a pool below [2^63] bytes
    that is more than the pool holds), and the world it leaves still
    contains the four things the call created: the device scalar, the
    temporary network with all operators appended, the configured accessor
    and the prepared workspace descriptor, each under a key that was free
    before. *)
Theorem overlap_workspace_error_leaks {C} (cabs : C -> C) (backend : Backend C)
    (self tnOther : TensorNetSimulationState C) (w w' : World C) :
  let bra := m_tensorOps (m_state tnOther) in
  let pool := scratchPad self in
  let nb := (getNumQubits self `max` getNumQubits tnOther)%nat in
  let d' := transposeAll (rev bra) (dev w) in
  let st := fresh_key (qstates w) in
  let acc := fresh_key (accessors w) in
  let wk := fresh_key (workspaces w) in
  let out := fresh_key d' in
  let Q := mkQState nb (replicate nb 2)
             (m_tensorOps (m_state self) ++ (negatedAdjoint <$> rev bra)) in
  let A := mkAccessor st (seqZ 0 (Z.of_nat nb)) (Some 8) in
  let need := plan_worksize backend Q A (Z.of_N (scratchSize pool)) in
  Forall shiftDefined bra ->
  overlap cabs backend self (TensorNet tnOther) w
  = (Throw (runtime_error InsufficientWorkspace), w') ->
  int64_of_size (scratchSize pool) < need
  /\ (Z.of_N (scratchSize pool) < 2 ^ 63 -> Z.of_N (scratchSize pool) < need)
  /\ (d' !! out = None /\ dev w' = <[out := [junk backend]]> d')
  /\ (qstates w !! st = None /\ qstates w' = <[st := Q]> (qstates w))
  /\ (accessors w !! acc = None /\ accessors w' = <[acc := A]> (accessors w))
  /\ (workspaces w !! wk = None
      /\ workspaces w' = <[wk := mkWorkspace (Some need) None]> (workspaces w)).
Proof.
  intros bra pool nb d' st acc wk out Q A need _ Hrun.
  subst need Q. rewrite <- flipAdjoint_negatedAdjoint.
  set (Q := mkQState nb (replicate nb 2)
              (m_tensorOps (m_state self) ++ (flipAdjoint <$> rev bra))).
  set (need := plan_worksize backend Q A (Z.of_N (scratchSize pool))).
  assert (Hready : Forall (dataReady (dev w)) bra).
  { revert Hrun. unfold overlap. cbn zeta. unfold bind at 1.
    pose proof (outcome_forM _ (conjugateOp backend)
                  (rev (m_tensorOps (m_state tnOther)))
                  (conjugateOp_only_api backend) w) as Hout.
    destruct (forM (conjugateOp backend) (rev (m_tensorOps (m_state tnOther))) w)
      as [[r|e] w1] eqn:E.
    - intros _. apply forM_conjugateOp_Ok_ready in E.
      apply Forall_rev in E. now rewrite rev_involutive in E.
    - intros [= -> _]. cbn [fst] in Hout. destruct Hout as [c Hc]. discriminate. }
  apply (overlap_refines cabs backend self (TensorNet tnOther) w _ w') in Hrun;
    [|discriminate].
  destruct w as [d q a ws l]. cbn [dev qstates accessors workspaces] in *.
  rewrite (overlap_run cabs (succeeding backend) (succeeding_ok backend)
             self tnOther d q a ws l Hready) in Hrun.
  cbn zeta in Hrun. unfold queryOps in Hrun.
  cbn [plan_worksize amplitude junk succeeding] in Hrun.
  fold bra pool nb d' st acc wk out Q A need in Hrun.
  destruct (need <=? int64_of_size (scratchSize pool)) eqn:Hfit; [discriminate|].
  injection Hrun as <-. apply Z.leb_gt in Hfit.
  cbn [dev qstates accessors workspaces].
  split; [exact Hfit|].
  split; [intros Hsmall; rewrite int64_of_size_small in Hfit by exact Hsmall;
          exact Hfit|].
  repeat split; apply fresh_key_None.
Qed.

Lemma overlap_workspace_error_leaks_witness :
  is_Some (qstates (snd (overlap Examples.cabs (Examples.backend 4096)
                           Examples.bell (TensorNet MoreExamples.mixed_bra)
                           Examples.world0)) !! 1%nat)
  /\ dev (snd (overlap Examples.cabs (Examples.backend 4096)
                 Examples.bell (TensorNet MoreExamples.mixed_bra)
                 Examples.world0))
       !! 4%nat = Some [(0, 0)]
  /\ dev (snd (overlap Examples.cabs (Examples.backend 4096)
                 Examples.bell (TensorNet MoreExamples.mixed_bra)
                 Examples.world0))
       !! 3%nat = Some [(10, 0); (20, 0); (30, 0); (40, 0)].
Proof.
  destruct (overlap_workspace_error_leaks Examples.cabs (Examples.backend 4096)
              Examples.bell MoreExamples.mixed_bra Examples.world0
              (snd (overlap Examples.cabs (Examples.backend 4096)
                      Examples.bell (TensorNet MoreExamples.mixed_bra)
                      Examples.world0)))
    as (_ & _ & (_ & Hd) & (_ & Hq) & _).
  - repeat (constructor; [intros Hu; try discriminate; vm_compute; lia|]).
    constructor.
  - vm_compute. reflexivity.
  - rewrite Hd, Hq. split; [eexists|split]; vm_compute; reflexivity.
Defined.
